(** * email-kanban: synchronisation, credential lifecycle and normalisation

    A shallow embedding of the backend of email-kanban
    (backend/database.py, backend/oauth.py, backend/providers.py,
    backend/main.py) and the properties of its cache, token and OAuth state
    logic.

    Conventions of the embedding.
    - Instants are integers counting microseconds (the resolution of
      Python's [datetime]); [seconds n] is [n] seconds.  SQLite's
      [CURRENT_TIMESTAMP] has a resolution of one second and is kept in
      whole seconds.
    - A JSON object read with [.get(key)] is a record of [option] fields,
      [None] standing for an absent key or a JSON null.
    - The items table is the list of its rows in rowid order; the accounts
      table and the [oauth_states] dict are finite maps keyed by string.
    - Remote calls (OAuth token endpoint, provider adapters) are answered by
      a [World] oracle and logged in the state, so that "no remote call was
      made" is a statement about the log. *)

From Stdlib Require Import ZArith Lia String Ascii Sorted.
From stdpp Require Import base option list strings gmap.

Open Scope string_scope.
Open Scope list_scope.
Open Scope Z_scope.

(** ** Python values *)

Module py.

(** Truthiness of an optional string: [None] and the empty string are falsy. *)
Definition truthy (v : option string) : bool :=
  match v with
  | Some s => negb (String.eqb s EmptyString)
  | None => false
  end.

(** [a or b] on optional strings. *)
Definition or (a b : option string) : option string :=
  if truthy a then a else b.

(** [s.upper()] on the ASCII range. *)
Definition upper_ascii (c : ascii) : ascii :=
  let n := nat_of_ascii c in
  if ((97 <=? n)%nat && (n <=? 122)%nat)%bool then ascii_of_nat (n - 32) else c.

Fixpoint upper (s : string) : string :=
  match s with
  | EmptyString => EmptyString
  | String c s' => String (upper_ascii c) (upper s')
  end.

(** Exceptions: fastapi's [HTTPException], and every other exception,
    of which only [str(e)] is observed. *)
Inductive exn :=
| HTTPException (status_code : Z) (detail : string)
| Error (msg : string).

Inductive res (A : Type) :=
| Ok (a : A)
| Raise (e : exn).
Arguments Ok {A} a.
Arguments Raise {A} e.

Definition seconds (n : Z) : Z := n * 1000000.

(** [timedelta.seconds]: the seconds component of a normalised
    [timedelta(days, seconds, microseconds)], with
    [0 <= seconds < 86400]; the whole days are held by [.days]. *)
Definition timedelta_days (d : Z) : Z := d `div` seconds 86400.
Definition timedelta_seconds (d : Z) : Z := (d `mod` seconds 86400) `div` seconds 1.

(** [timedelta.total_seconds()], rounded down to whole seconds. *)
Definition timedelta_total_seconds (d : Z) : Z := d `div` seconds 1.

End py.

(** ** backend/database.py *)

Module database.

(** A normalised item as the adapters build it (a JSON object). *)
Record Item := mkItem {
  item_id : string;
  item_title : option string;
  item_subject : option string;
  item_sender : option string;
  item_content : option string;
  item_date : option string;
  item_receivedDateTime : option string;
  item_dueDate : option string;
  item_webLink : option string;
  item_provider : string;
  item_flag : bool;
  item_projectId : option string;
  item_projectName : option string;
  item_completedTime : option string;
  item_priority : option Z
}.

(** A row of table [items]; [id TEXT PRIMARY KEY].  Column [data] holds
    [json.dumps(item)], read back with [json.loads]: it is kept as the
    item. *)
Record Row := mkRow {
  row_id : string;
  row_account_id : string;
  row_type : string;
  row_title : option string;
  row_sender : option string;
  row_content : option string;
  row_date : option string;
  row_data : Item;
  row_synced_at : Z
}.

(** The row written by the INSERT of [upsert_items]. *)
Definition item_row (now_s : Z) (account_id item_type : string) (item : Item) : Row :=
  {| row_id := item_id item;
     row_account_id := account_id;
     row_type := item_type;
     row_title := py.or (item_title item) (item_subject item);
     row_sender := item_sender item;
     row_content := item_content item;
     row_date := py.or (py.or (item_date item) (item_receivedDateTime item)) (item_dueDate item);
     row_data := item;
     row_synced_at := now_s |}.

(** [INSERT OR REPLACE]: the row in conflict on the primary key [id] is
    deleted, then the new row is inserted. *)
Definition insert_or_replace (r : Row) (t : list Row) : list Row :=
  filter (λ x, row_id x ≠ row_id r) t ++ [r].

(** [upsert_items(account_id, item_type, items)]; [now_s] is
    [CURRENT_TIMESTAMP]. *)
Definition upsert_items (now_s : Z) (account_id item_type : string)
    (items : list Item) (t : list Row) : list Row :=
  foldl (λ t item, insert_or_replace (item_row now_s account_id item_type item) t) t items.

(** [ORDER BY date DESC]: NULL sorts below every text, texts compare byte
    by byte; rows with equal dates stay in rowid order. *)
Definition date_leb (a b : option string) : bool :=
  match a, b with
  | None, _ => true
  | Some _, None => false
  | Some x, Some y => String.leb x y
  end.

Fixpoint insert_desc (r : Row) (l : list Row) : list Row :=
  match l with
  | [] => [r]
  | x :: l' =>
      if date_leb (row_date x) (row_date r) then r :: x :: l'
      else x :: insert_desc r l'
  end.

Definition order_by_date_desc (l : list Row) : list Row := foldr insert_desc [] l.

(** The optional conditions of [get_items]; a falsy argument adds none. *)
Definition type_is (item_type : option string) (r : Row) : Prop :=
  if py.truthy item_type then Some (row_type r) = item_type else True.

Definition date_from (start_date : option string) (r : Row) : Prop :=
  if py.truthy start_date then date_leb start_date (row_date r) = true ∧ row_date r ≠ None
  else True.

Definition date_to (end_date : option string) (r : Row) : Prop :=
  if py.truthy end_date then date_leb (row_date r) end_date = true ∧ row_date r ≠ None
  else True.

#[global] Instance type_is_dec ty r : Decision (type_is ty r).
Proof. unfold type_is. destruct (py.truthy ty); apply _. Defined.
#[global] Instance date_from_dec d r : Decision (date_from d r).
Proof. unfold date_from. destruct (py.truthy d); apply _. Defined.
#[global] Instance date_to_dec d r : Decision (date_to d r).
Proof. unfold date_to. destruct (py.truthy d); apply _. Defined.

(** [get_items(account_id, item_type, start_date, end_date)]. *)
Definition get_items_between (account_id : string)
    (item_type start_date end_date : option string) (t : list Row) : list Item :=
  row_data <$> order_by_date_desc
    (filter (λ r, row_account_id r = account_id ∧ type_is item_type r
                  ∧ date_from start_date r ∧ date_to end_date r) t).

(** [get_items(account_id, item_type)], the only form main.py calls. *)
Definition get_items (account_id item_type : string) (t : list Row) : list Item :=
  get_items_between account_id (Some item_type) None None t.

(** [delete_item(item_id)]: [DELETE FROM items WHERE id = ?]. *)
Definition delete_item (item_id : string) (t : list Row) : list Row :=
  filter (λ r, row_id r ≠ item_id) t.

(** [clear_account_items(account_id, item_type)]. *)
Definition clear_account_items (account_id : string) (item_type : option string)
    (t : list Row) : list Row :=
  if py.truthy item_type
  then filter (λ r, ¬ (row_account_id r = account_id ∧ Some (row_type r) = item_type)) t
  else filter (λ r, row_account_id r ≠ account_id) t.

(** [MAX(...)] over a column: NULL on no row. *)
Definition sql_max (l : list Z) : option Z :=
  foldr (λ x acc, Some (match acc with Some m => Z.max x m | None => x end)) None l.

(** [get_last_sync(account_id, item_type)], in whole seconds. *)
Definition get_last_sync (account_id item_type : string) (t : list Row) : option Z :=
  sql_max (row_synced_at <$>
    filter (λ r, row_account_id r = account_id ∧ row_type r = item_type) t).

(** The decrypted configuration of an account (a JSON object);
    [encrypt_data] and [decrypt_data] are inverse of each other and the
    table is kept in the clear. *)
Record Config := mkConfig {
  access_token : option string;
  refresh_token : option string;
  expires_at : option Z;
  shared_mailbox : option string;
  gmail_account_number : option Z;
  icloud_email : option string;
  icloud_app_password : option string
}.

Record Account := mkAccount {
  id : string;
  name : string;
  provider : string;
  email : option string;
  color : string;
  config : Config
}.

(** Table [accounts], [id TEXT PRIMARY KEY]. *)
Definition get_account (account_id : string) (t : gmap string Account) : option Account :=
  t !! account_id.

(** [update_account(account_id, config=config)]: an UPDATE, which changes
    nothing when no row has that id. *)
Definition update_account (account_id : string) (c : Config)
    (t : gmap string Account) : gmap string Account :=
  match t !! account_id with
  | Some a => <[account_id := {| id := id a; name := name a; provider := provider a;
                                 email := email a; color := color a; config := c |}]> t
  | None => t
  end.

(** [delete_account(account_id)]: the account's items, then the account. *)
Definition delete_account (account_id : string)
    (t : gmap string Account * list Row)
    : gmap string Account * list Row :=
  (delete account_id t.1, filter (λ r, row_account_id r ≠ account_id) t.2).

End database.

(** ** backend/oauth.py *)

Module oauth.

Inductive OAuthProvider := MicrosoftOAuth | GoogleOAuth | TickTickOAuth.

(** [get_oauth_provider(provider)]. *)
Definition get_oauth_provider (provider : string) : option OAuthProvider :=
  if bool_decide (provider = "office365" ∨ provider = "office365-shared")
  then Some MicrosoftOAuth
  else if bool_decide (provider = "gmail") then Some GoogleOAuth
  else if bool_decide (provider = "ticktick") then Some TickTickOAuth
  else None.

(** The JSON object answered by a token endpoint. *)
Record Tokens := mkTokens {
  tokens_access_token : option string;
  tokens_refresh_token : option string;
  tokens_expires_in : option Z
}.

End oauth.

(** ** backend/providers.py *)

Module providers.
Import py database.

(** *** TickTickProvider.get_tasks: filter and transform *)

(** A raw task, after the collection loops have set [projectId] and
    [projectName].  [content] and [priority] are read with a default,
    which applies to an absent key only: the outer [None] is the absent
    key, [Some None] a JSON null. *)
Record Task := mkTask {
  task_id : string;
  task_projectId : string;
  task_projectName : string;
  task_kind : option string;
  task_title : option string;
  task_content : option (option string);
  task_dueDate : option string;
  task_startDate : option string;
  task_completedTime : option string;
  task_status : option Z;
  task_priority : option (option Z)
}.

Definition is_note (task : Task) : bool :=
  String.eqb (upper (default EmptyString (py.or (task_kind task) (Some EmptyString)))) "NOTE".

Definition task_item (task : Task) : Item :=
  {| item_id := task_id task;
     item_title := task_title task;
     item_subject := None;
     item_sender := None;
     item_content := default (Some EmptyString) (task_content task);
     item_date := None;
     item_receivedDateTime := None;
     item_dueDate := py.or (task_dueDate task) (task_startDate task);
     item_webLink := Some ("https://ticktick.com/webapp/#p/" +:+ task_projectId task
                           +:+ "/tasks/" +:+ task_id task);
     item_provider := "ticktick";
     item_flag := bool_decide (task_status task = Some 2);
     item_projectId := Some (task_projectId task);
     item_projectName := Some (task_projectName task);
     item_completedTime := task_completedTime task;
     item_priority := default (Some 0) (task_priority task) |}.

(** The loop [for task in all_tasks] with its three [continue]. *)
Fixpoint filter_and_transform (all_tasks : list Task) : list Item :=
  match all_tasks with
  | [] => []
  | task :: rest =>
      if is_note task then filter_and_transform rest
      else if negb (truthy (task_title task)) then filter_and_transform rest
      else if negb (truthy (task_dueDate task)) && negb (truthy (task_startDate task))
      then filter_and_transform rest
      else task_item task :: filter_and_transform rest
  end.

(** *** GmailProvider.get_emails: the listing of message ids *)

(** The answer to one listing request: status, and for a 2xx the parsed
    body.  [error_text] is the text of the exception that
    [raise_for_status] builds for the response. *)
Record ListResponse := mkListResponse {
  status_code : Z;
  error_text : string;
  messages : list string;
  nextPageToken : option string
}.

Definition is_success (status : Z) : bool := (200 <=? status) && (status <? 300).

(** The loop [while True] of [get_emails].  [responses k] answers the
    [k]-th request sent; [n] counts the requests sent so far.  One unit of
    [fuel] is one iteration: [None] is a loop still running when the fuel
    is spent. *)
Fixpoint list_message_ids (fuel : nat) (responses : nat → ListResponse) (n : nat)
    (next_page_token : option string) (all_message_ids : list string)
    : option (res (list string)) :=
  match fuel with
  | O => None
  | S fuel' =>
      let response := responses n in
      if status_code response =? 429
      then (* await asyncio.sleep(2); continue *)
        list_message_ids fuel' responses (S n) next_page_token all_message_ids
      else if negb (is_success (status_code response))
      then Some (Raise (Error (error_text response)))
      else
        let all_message_ids := all_message_ids ++ messages response in
        let next_page_token := nextPageToken response in
        if negb (truthy next_page_token) then Some (Ok all_message_ids)
        else list_message_ids fuel' responses (S n) next_page_token all_message_ids
  end.

(** *** MicrosoftProvider.get_emails *)

Record GraphEmail := mkGraphEmail {
  graph_id : string;
  graph_subject : option string;
  graph_from_name : option string;
  graph_from_address : option string;
  graph_receivedDateTime : string;
  graph_webLink : option string;
  graph_flagStatus : option string
}.

Record PageResponse := mkPageResponse {
  page_status_code : Z;
  page_error_text : string;
  page_value : list GraphEmail;
  page_nextLink : option string
}.

Definition graph_item (e : GraphEmail) : Item :=
  {| item_id := graph_id e;
     item_title := None;
     item_subject := py.or (graph_subject e) (Some "(No subject)");
     item_sender := py.or (py.or (graph_from_name e) (graph_from_address e)) (Some "Unknown");
     item_content := None;
     item_date := None;
     item_receivedDateTime := Some (graph_receivedDateTime e);
     item_dueDate := None;
     item_webLink := graph_webLink e;
     item_provider := "office365";
     item_flag := bool_decide (graph_flagStatus e = Some "flagged");
     item_projectId := None;
     item_projectName := None;
     item_completedTime := None;
     item_priority := None |}.

(** The loop [while url]; the first url is never empty. *)
Fixpoint graph_pages (fuel : nat) (responses : nat → PageResponse) (n : nat)
    (all_emails : list Item) : option (res (list Item)) :=
  match fuel with
  | O => None
  | S fuel' =>
      let response := responses n in
      if negb (is_success (page_status_code response))
      then Some (Raise (Error (page_error_text response)))
      else
        let all_emails := all_emails ++ (graph_item <$> page_value response) in
        if negb (truthy (page_nextLink response)) then Some (Ok all_emails)
        else graph_pages fuel' responses (S n) all_emails
  end.

End providers.

(** ** backend/main.py *)

Module main.
Import py database oauth.

(** *** State, oracle and the monad of request handlers *)

(** An entry of the dict [oauth_states]. *)
Record OAuthState := mkOAuthState {
  state_account_id : string;
  state_provider : string
}.

(** The remote operations a handler can perform. *)
Inductive RemoteCall :=
| RefreshToken (p : OAuthProvider) (refresh_token : string)
| ExchangeCode (p : OAuthProvider) (code : option string)
| MicrosoftGetEmails (access_token : option string) (start_date : Z)
    (shared_mailbox : option string)
| GmailGetEmails (access_token : option string) (start_date : Z)
    (gmail_account_number : option Z)
| YahooGetEmails (access_token : option string) (email_address : string) (start_date : Z)
| ICloudGetEmails (icloud_email icloud_password : string) (start_date : Z)
| TickTickGetTasks (access_token : option string)
| MicrosoftArchiveEmail (access_token : option string) (email_id : string)
    (shared_mailbox : option string)
| GmailArchiveEmail (access_token : option string) (email_id : string).

(** What the outside answers during one request: the clock at each place
    it is read, the random state token, and the outcome of each remote
    call ([inl msg] is an exception with [str(e) = msg], never an
    [HTTPException]). *)
Record World := mkWorld {
  utcnow_ttl : Z;            (* datetime.utcnow() in get_account_items, TTL test *)
  utcnow_token : Z;          (* datetime.utcnow().timestamp() in get_valid_token, expiry test *)
  utcnow_refreshed : Z;      (* datetime.utcnow().timestamp() after the refresh *)
  utcnow_response : Z;       (* datetime.utcnow() of the fresh response *)
  utcnow_callback : Z;       (* datetime.utcnow().timestamp() in oauth_callback *)
  current_timestamp : Z;     (* CURRENT_TIMESTAMP of the INSERTs, whole seconds *)
  start_of_week_paris : Z;   (* get_start_of_week_paris() *)
  token_urlsafe : string;    (* secrets.token_urlsafe(32) *)
  reply_tokens : RemoteCall → string + Tokens;
  reply_items : RemoteCall → string + list Item;
  reply_done : RemoteCall → option string
}.

Record State := mkState {
  accounts : gmap string Account;
  items : list Row;
  oauth_states : gmap string OAuthState;
  remote_calls : list RemoteCall
}.

Definition M (A : Type) : Type := State → res A * State.

#[global] Instance M_ret : MRet M := λ A a s, (Ok a, s).
#[global] Instance M_bind : MBind M := λ A B f m s,
  match m s with
  | (Ok a, s') => f a s'
  | (Raise e, s') => (Raise e, s')
  end.

Definition raise {A} (e : exn) : M A := λ s, (Raise e, s).

(** [try: body except ...: handler]; the handler sees the state the body
    left. *)
Definition try_except {A} (body : M A) (handler : exn → M A) : M A := λ s,
  match body s with
  | (Ok a, s') => (Ok a, s')
  | (Raise e, s') => handler e s'
  end.

Definition read {A} (f : State → A) : M A := λ s, (Ok (f s), s).

Definition set_accounts (f : gmap string Account → gmap string Account) : M () := λ s,
  (Ok (), {| accounts := f (accounts s); items := items s;
             oauth_states := oauth_states s; remote_calls := remote_calls s |}).

Definition set_items (f : list Row → list Row) : M () := λ s,
  (Ok (), {| accounts := accounts s; items := f (items s);
             oauth_states := oauth_states s; remote_calls := remote_calls s |}).

Definition set_oauth_states (f : gmap string OAuthState → gmap string OAuthState)
    : M () := λ s,
  (Ok (), {| accounts := accounts s; items := items s;
             oauth_states := f (oauth_states s); remote_calls := remote_calls s |}).

(** A remote call: logged, then answered by the oracle. *)
Definition log (c : RemoteCall) : M () := λ s,
  (Ok (), {| accounts := accounts s; items := items s;
             oauth_states := oauth_states s; remote_calls := remote_calls s ++ [c] |}).

Definition remote {A} (answer : string + A) (c : RemoteCall) : M A :=
  log c;;
  match answer with
  | inr a => mret a
  | inl msg => raise (Error msg)
  end.

Definition remote_tokens (w : World) (c : RemoteCall) : M Tokens :=
  remote (reply_tokens w c) c.
Definition remote_items (w : World) (c : RemoteCall) : M (list Item) :=
  remote (reply_items w c) c.
Definition remote_done (w : World) (c : RemoteCall) : M () :=
  remote (match reply_done w c with Some msg => inl msg | None => inr () end) c.

(** [str(e)]. *)
Definition str (e : exn) : string :=
  match e with
  | HTTPException _ detail => detail
  | Error msg => msg
  end.

Definition with_tokens (c : Config) (access refresh : option string) (expires : Z)
    : Config :=
  {| access_token := access; refresh_token := refresh; expires_at := Some expires;
     shared_mailbox := shared_mailbox c; gmail_account_number := gmail_account_number c;
     icloud_email := icloud_email c; icloud_app_password := icloud_app_password c |}.

(** *** OAuth routes *)

(** [authorize(provider, account_id)]; the answer is the state token that
    the authorization URL carries. *)
Definition authorize (w : World) (provider account_id : string) : M string :=
  match get_oauth_provider provider with
  | None => raise (HTTPException 400 ("Unknown provider: " +:+ provider))
  | Some _ =>
      let state := token_urlsafe w in
      set_oauth_states (λ m, <[state := {| state_account_id := account_id;
                                          state_provider := provider |}]> m);;
      mret state
  end.

(** The lookup of [oauth_callback]:
    [if not state or state not in oauth_states: ...] then
    [state_data = oauth_states.pop(state)]. *)
Definition consume (state : option string) : M (option OAuthState) :=
  states ← read oauth_states;
  match state with
  | Some st =>
      if truthy state then
        match states !! st with
        | Some state_data => set_oauth_states (λ m, delete st m);; mret (Some state_data)
        | None => mret None
        end
      else mret None
  | None => mret None
  end.

Inductive Redirect :=
| RedirectError (error : string)
| RedirectSuccess (account_id : string).

(** [oauth_callback(provider, code, state, error)]. *)
Definition oauth_callback (w : World) (provider : string)
    (code state error : option string) : M Redirect :=
  if truthy error then mret (RedirectError (default EmptyString error))
  else
    found ← consume state;
    match found with
    | None => mret (RedirectError "invalid_state")
    | Some state_data =>
        let account_id := state_account_id state_data in
        match get_oauth_provider provider with
        | None => mret (RedirectError "unknown_provider")
        | Some oauth =>
            try_except
              (tokens ← remote_tokens w (ExchangeCode oauth code);
               account ← read (λ s, get_account account_id (accounts s));
               match account with
               | None => mret (RedirectError "account_not_found")
               | Some account =>
                   let config :=
                     with_tokens (config account) (tokens_access_token tokens)
                       (tokens_refresh_token tokens)
                       (utcnow_callback w + seconds (default 3600 (tokens_expires_in tokens))) in
                   set_accounts (update_account account_id config);;
                   mret (RedirectSuccess account_id)
               end)
              (λ e, mret (RedirectError (str e)))
        end
    end.

(** *** Token refresh helper *)

(** [get_valid_token(account)]. *)
Definition get_valid_token (w : World) (account : Account) : M (option string) :=
  let c := config account in
  if negb (truthy (access_token c))
  then raise (HTTPException 401 "Account not authorized")
  else if utcnow_token w >? default 0 (expires_at c) - seconds 300
  then
    if negb (truthy (refresh_token c))
    then raise (HTTPException 401 "Token expired, please re-authorize")
    else
      match get_oauth_provider (provider account) with
      | None => raise (HTTPException 400 "Unknown provider")
      | Some oauth =>
          try_except
            (tokens ← remote_tokens w (RefreshToken oauth (default EmptyString (refresh_token c)));
             let c' :=
               with_tokens c (tokens_access_token tokens)
                 (if truthy (tokens_refresh_token tokens)
                  then tokens_refresh_token tokens else refresh_token c)
                 (utcnow_refreshed w + seconds (default 3600 (tokens_expires_in tokens))) in
             set_accounts (update_account (id account) c');;
             mret (access_token c'))
            (λ e, raise (HTTPException 401 ("Token refresh failed: " +:+ str e)))
      end
  else mret (access_token c).

(** *** Email/Task routes *)

(** The JSON answer of [get_account_items]. *)
Record ItemsResponse := mkItemsResponse {
  resp_items : list Item;
  resp_cached : bool;
  resp_last_sync : option Z;
  resp_error : option string
}.

Definition item_type_of (provider : string) : string :=
  if bool_decide (provider = "ticktick") then "task" else "email".

(** The body of the [try] of [get_account_items], up to the fetch. *)
Definition fetch_fresh (w : World) (account : Account) : M (list Item) :=
  let provider := provider account in
  let c := config account in
  let start_date := start_of_week_paris w in
  if bool_decide (provider = "icloud") then
    if negb (truthy (icloud_email c)) || negb (truthy (icloud_app_password c))
    then raise (HTTPException 401 "iCloud credentials not configured")
    else remote_items w (ICloudGetEmails (default EmptyString (icloud_email c))
                           (default EmptyString (icloud_app_password c)) start_date)
  else
    access_token ← get_valid_token w account;
    if bool_decide (provider = "office365" ∨ provider = "office365-shared")
    then remote_items w (MicrosoftGetEmails access_token start_date (shared_mailbox c))
    else if bool_decide (provider = "gmail")
    then remote_items w (GmailGetEmails access_token start_date (gmail_account_number c))
    else if bool_decide (provider = "yahoo")
    then
      if negb (truthy (email account))
      then raise (HTTPException 401 "Yahoo email address not found")
      else remote_items w (YahooGetEmails access_token (default EmptyString (email account)) start_date)
    else if bool_decide (provider = "ticktick")
    then remote_items w (TickTickGetTasks access_token)
    else raise (HTTPException 400 ("Unknown provider: " +:+ provider)).

(** The test of the cache-hit path:
    [not force_refresh and last_sync and (datetime.utcnow() - last_sync).seconds < 300]. *)
Definition use_cache (w : World) (force_refresh : bool) (last_sync : option Z) : bool :=
  negb force_refresh &&
  match last_sync with
  | Some ls => timedelta_seconds (utcnow_ttl w - seconds ls) <? 300
  | None => false
  end.

(** [get_account_items(account_id, force_refresh)]. *)
Definition get_account_items (w : World) (account_id : string) (force_refresh : bool)
    : M ItemsResponse :=
  account ← read (λ s, get_account account_id (accounts s));
  match account with
  | None => raise (HTTPException 404 "Account not found")
  | Some account =>
      let item_type := item_type_of (provider account) in
      last_sync ← read (λ s, get_last_sync account_id item_type (items s));
      if use_cache w force_refresh last_sync then
        items ← read (λ s, get_items account_id item_type (items s));
        mret {| resp_items := items; resp_cached := true;
                resp_last_sync := seconds <$> last_sync; resp_error := None |}
      else
        try_except
          (items ← fetch_fresh w account;
           set_items (clear_account_items account_id (Some item_type));;
           set_items (upsert_items (current_timestamp w) account_id item_type items);;
           mret {| resp_items := items; resp_cached := false;
                   resp_last_sync := Some (utcnow_response w); resp_error := None |})
          (λ e,
             match e with
             | HTTPException _ _ => raise e
             | Error _ =>
                 items ← read (λ s, get_items account_id item_type (items s));
                 match items with
                 | _ :: _ =>
                     mret {| resp_items := items; resp_cached := true;
                             resp_last_sync := None; resp_error := Some (str e) |}
                 | [] => raise (HTTPException 500 (str e))
                 end
             end)
  end.

(** [sync_account(account_id)]. *)
Definition sync_account (w : World) (account_id : string) : M ItemsResponse :=
  get_account_items w account_id true.

(** *** Email actions *)

(** [archive_email(account_id, email_id)]. *)
Definition archive_email (w : World) (account_id email_id : string) : M string :=
  account ← read (λ s, get_account account_id (accounts s));
  match account with
  | None => raise (HTTPException 404 "Account not found")
  | Some account =>
      access_token ← get_valid_token w account;
      let c := config account in
      (if bool_decide (provider account = "office365" ∨ provider account = "office365-shared")
       then remote_done w (MicrosoftArchiveEmail access_token email_id (shared_mailbox c))
       else if bool_decide (provider account = "gmail")
       then remote_done w (GmailArchiveEmail access_token email_id)
       else raise (HTTPException 400 "Provider does not support archive"));;
      set_items (delete_item email_id);;
      mret "ok"
  end.

End main.

(** ** Notions used by the statements *)

Module props.
Import py database.

(** The primary key of table [items]: no two rows share an id. *)
Definition unique_ids (t : list Row) : Prop := NoDup (row_id <$> t).

(** A batch as the table keeps it: of the items that share an id, the
    last one written survives. *)
Fixpoint keep_last (batch : list Item) : list Item :=
  match batch with
  | [] => []
  | x :: l =>
      if bool_decide (item_id x ∈ item_id <$> l) then keep_last l else x :: keep_last l
  end.

End props.

(** ** Sample data *)

Module examples.
Import py database oauth providers main.

(** A mail item with an id and a received date. *)
Definition mail (i : string) (received : option string) : Item :=
  {| item_id := i; item_title := None; item_subject := Some "Hello";
     item_sender := Some "Ann"; item_content := None; item_date := None;
     item_receivedDateTime := received; item_dueDate := None; item_webLink := None;
     item_provider := "gmail"; item_flag := false; item_projectId := None;
     item_projectName := None; item_completedTime := None; item_priority := None |}.

(** A configuration with both tokens, expiring at [expires] seconds. *)
Definition tokens_until (expires : Z) : Config :=
  {| access_token := Some "at-1"; refresh_token := Some "rt-1";
     expires_at := Some (seconds expires); shared_mailbox := None;
     gmail_account_number := Some 0; icloud_email := None; icloud_app_password := None |}.

Definition gmail_account (i : string) (c : Config) : Account :=
  {| id := i; name := i; provider := "gmail"; email := Some EmptyString; color := "#0078d4";
     config := c |}.

(** Accounts ["A"] and ["B"], both with tokens valid until second 9000. *)
Definition two_accounts : gmap string Account :=
  <["A" := gmail_account "A" (tokens_until 9000)]>
    (<["B" := gmail_account "B" (tokens_until 9000)]> ∅).

(** A world at second [now], where the listing answers [fetched], the
    token endpoint answers [refreshed] and archiving succeeds. *)
Definition world_at (now : Z) (refreshed : string + Tokens) (fetched : string + list Item)
    : World :=
  {| utcnow_ttl := seconds now; utcnow_token := seconds now;
     utcnow_refreshed := seconds now; utcnow_response := seconds now;
     utcnow_callback := seconds now; current_timestamp := now;
     start_of_week_paris := 0; token_urlsafe := "Zm9vYmFy";
     reply_tokens := λ _, refreshed; reply_items := λ _, fetched;
     reply_done := λ _, None |}.

(** Three mails of account ["A"], cached at second 1000. *)
Definition three_mails : list Item :=
  [mail "m1" (Some "2024-01-01"); mail "m2" (Some "2024-01-03"); mail "m3" None].

Definition cached_state : State :=
  {| accounts := two_accounts;
     items := upsert_items 1000 "A" "email" three_mails [];
     oauth_states := ∅; remote_calls := [] |}.

(** Account ["B"] holds a mail with id ["m1"], account ["A"] one with id
    ["m2"]. *)
Definition shared_id_state : State :=
  {| accounts := two_accounts;
     items := upsert_items 1000 "A" "email" [mail "m2" None]
                (upsert_items 1000 "B" "email" [mail "m1" None] []);
     oauth_states := ∅; remote_calls := [] |}.

(** The answer and the state after a forced fetch of one mail ["m9"] at
    second 5000, from [cached_state]. *)
Definition one_mail_world : World := world_at 5000 (inl "unused") (inr [mail "m9" None]).

Definition one_mail_response : ItemsResponse :=
  {| resp_items := [mail "m9" None]; resp_cached := false;
     resp_last_sync := Some (seconds 5000); resp_error := None |}.

Definition one_mail_state : State :=
  {| accounts := two_accounts;
     items := [item_row 5000 "A" "email" (mail "m9" None)];
     oauth_states := ∅;
     remote_calls := [GmailGetEmails (Some "at-1") 0 (Some 0)] |}.

(** [shared_id_state] after account ["A"] archived the id ["m1"] at
    second 5000. *)
Definition archived_state : State :=
  {| accounts := two_accounts;
     items := [item_row 1000 "A" "email" (mail "m2" None)];
     oauth_states := ∅;
     remote_calls := [GmailArchiveEmail (Some "at-1") "m1"] |}.

(** [cached_state] after [authorize] issued the state token of
    [world_at] for account ["A"]. *)
Definition issued_state : State :=
  {| accounts := two_accounts;
     items := items cached_state;
     oauth_states := <["Zm9vYmFy" := {| state_account_id := "A";
                                        state_provider := "gmail" |}]> ∅;
     remote_calls := [] |}.

(** The token endpoint answers a new access token good for an hour and
    no refresh token. *)
Definition new_tokens : Tokens :=
  {| tokens_access_token := Some "at-2"; tokens_refresh_token := None;
     tokens_expires_in := Some 3600 |}.

(** [cached_state] after one remote call. *)
Definition cached_state_after (c : RemoteCall) : State :=
  {| accounts := two_accounts; items := items cached_state;
     oauth_states := ∅; remote_calls := [c] |}.

(** A raw task of project ["p1"]. *)
Definition raw_task (kind title due start : option string) : Task :=
  {| task_id := "t1"; task_projectId := "p1"; task_projectName := "Home";
     task_kind := kind; task_title := title; task_content := None;
     task_dueDate := due; task_startDate := start; task_completedTime := None;
     task_status := Some 0; task_priority := None |}.

(** Answers of the Gmail listing: rate limited, and a last page. *)
Definition rate_limited : ListResponse :=
  {| status_code := 429; error_text := "Client error '429 Too Many Requests'";
     messages := []; nextPageToken := None |}.

Definition last_page (ids : list string) : ListResponse :=
  {| status_code := 200; error_text := EmptyString; messages := ids; nextPageToken := None |}.

(** Two rate-limited answers, then a last page. *)
Definition twice_limited (n : nat) : ListResponse :=
  match n with
  | 0%nat | 1%nat => rate_limited
  | _ => last_page ["a"; "b"]
  end.

(** A Graph listing that is rate limited at once. *)
Definition graph_limited (n : nat) : PageResponse :=
  {| page_status_code := 429; page_error_text := "Client error '429 Too Many Requests'";
     page_value := []; page_nextLink := None |}.

End examples.

(** ** backend/database.py and backend/main.py: accounts *)

Module accounts.
Import py database oauth main.

(** The dict answered by [create_account]. *)
Record AccountInfo := mkAccountInfo {
  info_id : string;
  info_name : string;
  info_provider : string;
  info_email : string;
  info_color : string
}.

(** [config or {}] with nothing in it. *)
Definition empty_config : Config :=
  {| access_token := None; refresh_token := None; expires_at := None;
     shared_mailbox := None; gmail_account_number := None;
     icloud_email := None; icloud_app_password := None |}.

(** [create_account(id, name, provider, email, color, config)]: an INSERT,
    which raises on an id already in the table ([id TEXT PRIMARY KEY]). *)
Definition create_account (id name provider email color : string) (config : Config)
    (t : gmap string Account) : res AccountInfo * gmap string Account :=
  match t !! id with
  | Some _ => (Raise (Error "UNIQUE constraint failed: accounts.id"), t)
  | None =>
      (Ok {| info_id := id; info_name := name; info_provider := provider;
             info_email := email; info_color := color |},
       <[id := {| database.id := id; database.name := name;
                  database.provider := provider; database.email := Some email;
                  database.color := color; database.config := config |}]> t)
  end.

(** [update_account(account_id, **kwargs)] with the keywords main.py
    passes: [name], [color], [config]; [None] is a keyword not passed. *)
Definition update_account_kwargs (account_id : string) (new_name new_color : option string)
    (new_config : option Config) (t : gmap string Account) : gmap string Account :=
  match t !! account_id with
  | Some a =>
      <[account_id := {| id := id a; name := default (name a) new_name;
                         provider := provider a; email := email a;
                         color := default (color a) new_color;
                         config := default (config a) new_config |}]> t
  | None => t
  end.

(** The body of a POST /accounts. *)
Record AccountCreate := mkAccountCreate {
  create_name : string;
  create_provider : string;
  create_color : string;
  create_shared_mailbox : option string;
  create_gmail_account_number : option Z;
  create_yahoo_email : option string;
  create_icloud_email : option string;
  create_icloud_app_password : option string
}.

(** [add_account(account)]; [hex9] is [uuid.uuid4().hex[:9]]. *)
Definition add_account (hex9 : string) (account : AccountCreate) : M AccountInfo :=
  let account_id := "acc_" +:+ hex9 in
  let config :=
    {| access_token := None; refresh_token := None; expires_at := None;
       shared_mailbox := create_shared_mailbox account;
       gmail_account_number := create_gmail_account_number account;
       icloud_email := None; icloud_app_password := None |} in
  let email := EmptyString in
  if bool_decide (create_provider account = "yahoo")
     && negb (truthy (create_yahoo_email account))
  then raise (HTTPException 400 "Yahoo requires email address")
  else
    let email :=
      if bool_decide (create_provider account = "yahoo")
      then default EmptyString (create_yahoo_email account) else email in
    if bool_decide (create_provider account = "icloud")
       && (negb (truthy (create_icloud_email account))
           || negb (truthy (create_icloud_app_password account)))
    then raise (HTTPException 400 "iCloud requires email and app-specific password")
    else
      let config :=
        if bool_decide (create_provider account = "icloud")
        then {| access_token := None; refresh_token := None; expires_at := None;
                shared_mailbox := create_shared_mailbox account;
                gmail_account_number := create_gmail_account_number account;
                icloud_email := create_icloud_email account;
                icloud_app_password := create_icloud_app_password account |}
        else config in
      let email :=
        if bool_decide (create_provider account = "icloud")
        then default EmptyString (create_icloud_email account) else email in
      λ s,
        let (answer, t) :=
          create_account account_id (create_name account) (create_provider account)
            email (create_color account) config (accounts s) in
        (answer, {| accounts := t; items := items s; oauth_states := oauth_states s;
                    remote_calls := remote_calls s |}).

(** The body of a PATCH /accounts/{account_id}. *)
Record AccountUpdate := mkAccountUpdate {
  update_name : option string;
  update_color : option string;
  update_shared_mailbox : option string;
  update_gmail_account_number : option Z;
  update_icloud_email : option string;
  update_icloud_app_password : option string
}.

(** [update_account_details(account_id, updates)]. *)
Definition update_account_details (account_id : string) (updates : AccountUpdate)
    : M string :=
  account ← read (λ s, get_account account_id (accounts s));
  match account with
  | None => raise (HTTPException 404 "Account not found")
  | Some account =>
      let new_name := if truthy (update_name updates) then update_name updates else None in
      let new_color := if truthy (update_color updates) then update_color updates else None in
      let c := config account in
      let new_config :=
        match update_shared_mailbox updates, update_gmail_account_number updates with
        | None, None => None
        | mailbox, number =>
            Some {| access_token := access_token c; refresh_token := refresh_token c;
                    expires_at := expires_at c;
                    shared_mailbox := match mailbox with
                                      | Some _ => mailbox
                                      | None => shared_mailbox c
                                      end;
                    gmail_account_number := match number with
                                            | Some _ => number
                                            | None => gmail_account_number c
                                            end;
                    icloud_email := icloud_email c;
                    icloud_app_password := icloud_app_password c |}
        end in
      set_accounts (update_account_kwargs account_id new_name new_color new_config);;
      mret "ok"
  end.

(** [remove_account(account_id)]. *)
Definition remove_account (account_id : string) : M string := λ s,
  let t := delete_account account_id (accounts s, items s) in
  (Ok "ok", {| accounts := t.1; items := t.2; oauth_states := oauth_states s;
               remote_calls := remote_calls s |}).

End accounts.

(** ** backend/main.py: star and complete *)

Module actions.
Import py database oauth main.

(** The remote mutations of the star and complete routes. *)
Inductive ActionCall :=
| MicrosoftToggleFlag (access_token : option string) (email_id : string) (flagged : bool)
    (shared_mailbox : option string)
| GmailToggleStar (access_token : option string) (email_id : string) (starred : bool)
| TickTickCompleteTask (access_token : option string) (project_id task_id : string)
| TickTickUncompleteTask (access_token : option string) (project_id task_id : string).

(** The state with the log of these mutations. *)
Record ActionState := mkActionState {
  base : State;
  action_calls : list ActionCall
}.

Definition MA (A : Type) : Type := ActionState → res A * ActionState.

#[global] Instance MA_ret : MRet MA := λ A a s, (Ok a, s).
#[global] Instance MA_bind : MBind MA := λ A B f m s,
  match m s with
  | (Ok a, s') => f a s'
  | (Raise e, s') => (Raise e, s')
  end.

Definition fail {A} (e : exn) : MA A := λ s, (Raise e, s).

(** A handler of [main] run on the base state. *)
Definition lift {A} (m : M A) : MA A := λ s,
  let (x, b) := m (base s) in (x, {| base := b; action_calls := action_calls s |}).

(** A remote mutation: logged, then answered ([Some msg] is an exception
    with [str(e) = msg]). *)
Definition act (answer : option string) (c : ActionCall) : MA () := λ s,
  let s' := {| base := base s; action_calls := action_calls s ++ [c] |} in
  match answer with
  | Some msg => (Raise (Error msg), s')
  | None => (Ok (), s')
  end.

(** [toggle_email_star(account_id, email_id, starred)]. *)
Definition toggle_email_star (w : World) (reply : ActionCall → option string)
    (account_id email_id : string) (starred : bool) : MA string :=
  account ← lift (read (λ s, get_account account_id (accounts s)));
  match account with
  | None => fail (HTTPException 404 "Account not found")
  | Some account =>
      access_token ← lift (get_valid_token w account);
      let c := config account in
      (if bool_decide (provider account = "office365" ∨ provider account = "office365-shared")
       then let call := MicrosoftToggleFlag access_token email_id starred (shared_mailbox c) in
            act (reply call) call
       else if bool_decide (provider account = "gmail")
       then let call := GmailToggleStar access_token email_id starred in
            act (reply call) call
       else fail (HTTPException 400 "Provider does not support star"));;
      mret "ok"
  end.

(** [toggle_task_complete(account_id, task_id, project_id, completed)]. *)
Definition toggle_task_complete (w : World) (reply : ActionCall → option string)
    (account_id task_id project_id : string) (completed : bool) : MA string :=
  account ← lift (read (λ s, get_account account_id (accounts s)));
  match account with
  | None => fail (HTTPException 404 "Account not found")
  | Some account =>
      if negb (bool_decide (provider account = "ticktick"))
      then fail (HTTPException 400 "Not a task provider")
      else
        access_token ← lift (get_valid_token w account);
        (if completed
         then let call := TickTickCompleteTask access_token project_id task_id in
              act (reply call) call
         else let call := TickTickUncompleteTask access_token project_id task_id in
              act (reply call) call);;
        mret "ok"
  end.

End actions.

(** ** backend/providers.py: the collection of TickTick tasks *)

Module ticktick.
Import py database providers.

(** [s.lower()] on the ASCII range. *)
Definition lower_ascii (c : ascii) : ascii :=
  let n := nat_of_ascii c in
  if ((65 <=? n)%nat && (n <=? 90)%nat)%bool then ascii_of_nat (n + 32) else c.

Fixpoint lower (s : string) : string :=
  match s with
  | EmptyString => EmptyString
  | String c s' => String (lower_ascii c) (lower s')
  end.

(** An entry of the answer to GET /project. *)
Record Project := mkProject {
  project_id : string;
  project_name : string
}.

(** [task["projectId"] = ...; task["projectName"] = ...]. *)
Definition in_project (id name : string) (task : Task) : Task :=
  {| task_id := task_id task; task_projectId := id; task_projectName := name;
     task_kind := task_kind task; task_title := task_title task;
     task_content := task_content task; task_dueDate := task_dueDate task;
     task_startDate := task_startDate task; task_completedTime := task_completedTime task;
     task_status := task_status task; task_priority := task_priority task |}.

(** The loop over the projects.  [data id] is the list of tasks answered by
    GET /project/{id}/data, [None] when the request raises or its status is
    no success: the project is then skipped. *)
Fixpoint project_tasks (data : string → option (list Task)) (projects : list Project)
    : list Task :=
  match projects with
  | [] => []
  | project :: rest =>
      match data (project_id project) with
      | Some tasks =>
          (in_project (project_id project) (project_name project) <$> tasks)
            ++ project_tasks data rest
      | None => project_tasks data rest
      end
  end.

Definition inbox_ids : list string := ["inbox"; "INBOX"; "none"].

Definition has_inbox (projects : list Project) : bool :=
  existsb (λ p, bool_decide (project_id p ∈ inbox_ids)
                || String.eqb (lower (project_name p)) "inbox") projects.

(** The loop over [inbox_ids], left at the first answer. *)
Fixpoint inbox_tasks (data : string → option (list Task)) (ids : list string) : list Task :=
  match ids with
  | [] => []
  | inbox_id :: rest =>
      match data inbox_id with
      | Some tasks => in_project inbox_id "Inbox" <$> tasks
      | None => inbox_tasks data rest
      end
  end.

(** [TickTickProvider.get_tasks()]: [status] and [error] are those of the
    answer to GET /project. *)
Definition get_tasks (status : Z) (error : string) (projects : list Project)
    (data : string → option (list Task)) : res (list Item) :=
  if negb (is_success status) then Raise (Error error)
  else
    let all_tasks := project_tasks data projects in
    let all_tasks :=
      if negb (has_inbox projects) then all_tasks ++ inbox_tasks data inbox_ids
      else all_tasks in
    Ok (filter_and_transform all_tasks).

End ticktick.

(** ** Further notions used by the statements *)

Module more_props.
Import py database.

(** The order of [ORDER BY date DESC] on two rows: the second is not later
    than the first. *)
Definition newest_first (r1 r2 : Row) : Prop := date_leb (row_date r2) (row_date r1) = true.

(** The condition of [get_items] on a row. *)
Definition selected (account_id : string) (item_type start_date end_date : option string)
    (r : Row) : Prop :=
  row_account_id r = account_id ∧ type_is item_type r
  ∧ date_from start_date r ∧ date_to end_date r.

(** The remote calls that list the items of an account. *)
Definition is_listing (c : main.RemoteCall) : Prop :=
  match c with
  | main.MicrosoftGetEmails _ _ _ | main.GmailGetEmails _ _ _ | main.YahooGetEmails _ _ _
  | main.ICloudGetEmails _ _ _ | main.TickTickGetTasks _ => True
  | _ => False
  end.

Definition is_refresh (c : main.RemoteCall) : Prop :=
  match c with
  | main.RefreshToken _ _ => True
  | _ => False
  end.

(** The items of the Graph pages [n], ..., [n + k - 1], in order. *)
Fixpoint graph_items (responses : nat → providers.PageResponse) (n k : nat) : list Item :=
  match k with
  | O => []
  | S k' => (providers.graph_item <$> providers.page_value (responses n))
              ++ graph_items responses (S n) k'
  end.

(** The message ids of the Gmail pages [n], ..., [n + k - 1], in order. *)
Fixpoint listed_ids (responses : nat → providers.ListResponse) (n k : nat) : list string :=
  match k with
  | O => []
  | S k' => providers.messages (responses n) ++ listed_ids responses (S n) k'
  end.

End more_props.

(** ** Further sample data *)

Module more_examples.
Import py database oauth providers main examples accounts.

(** A world at second [now] where archiving fails. *)
Definition failing_archive_world (now : Z) : World :=
  {| utcnow_ttl := seconds now; utcnow_token := seconds now;
     utcnow_refreshed := seconds now; utcnow_response := seconds now;
     utcnow_callback := seconds now; current_timestamp := now;
     start_of_week_paris := 0; token_urlsafe := "Zm9vYmFy";
     reply_tokens := λ _, inl "unused"; reply_items := λ _, inl "unused";
     reply_done := λ _, Some "503 Service Unavailable" |}.

(** [shared_id_state] after account ["A"] failed to archive ["m2"]. *)
Definition failed_archive_state : State :=
  {| accounts := two_accounts; items := items shared_id_state;
     oauth_states := ∅; remote_calls := [GmailArchiveEmail (Some "at-1") "m2"] |}.

(** A Yahoo account with both tokens, expiring at second 9000. *)
Definition yahoo_account : Account :=
  {| id := "Y"; name := "Yahoo"; provider := "yahoo"; email := Some "ann@yahoo.com";
     color := "#0078d4"; config := tokens_until 9000 |}.

Definition yahoo_state : State :=
  {| accounts := <["Y" := yahoo_account]> ∅;
     items := upsert_items 1000 "Y" "email" three_mails [];
     oauth_states := ∅; remote_calls := [] |}.

(** An iCloud account: an address and an app-specific password, no
    token. *)
Definition icloud_account : Account :=
  {| id := "I"; name := "iCloud"; provider := "icloud"; email := Some "ann@icloud.com";
     color := "#0078d4";
     config := {| access_token := None; refresh_token := None; expires_at := None;
                  shared_mailbox := None; gmail_account_number := Some 0;
                  icloud_email := Some "ann@icloud.com";
                  icloud_app_password := Some "abcd-efgh" |} |}.

Definition icloud_state : State :=
  {| accounts := <["I" := icloud_account]> ∅; items := [];
     oauth_states := ∅; remote_calls := [] |}.

(** The body of a request for a new Gmail account. *)
Definition new_gmail : AccountCreate :=
  {| create_name := "Work"; create_provider := "gmail"; create_color := "#0078d4";
     create_shared_mailbox := None; create_gmail_account_number := Some 1;
     create_yahoo_email := None; create_icloud_email := None;
     create_icloud_app_password := None |}.

(** [cached_state] with the new account. *)
Definition new_gmail_state : State :=
  {| accounts :=
       <["acc_0123abcde" :=
           {| id := "acc_0123abcde"; name := "Work"; provider := "gmail";
              email := Some EmptyString; color := "#0078d4";
              config := {| access_token := None; refresh_token := None;
                           expires_at := None; shared_mailbox := None;
                           gmail_account_number := Some 1; icloud_email := None;
                           icloud_app_password := None |} |}]> two_accounts;
     items := items cached_state; oauth_states := ∅; remote_calls := [] |}.

(** A PATCH that renames, and carries iCloud credentials. *)
Definition rename_update : AccountUpdate :=
  {| update_name := Some "Personal"; update_color := None;
     update_shared_mailbox := None; update_gmail_account_number := Some 2;
     update_icloud_email := Some "eve@icloud.com";
     update_icloud_app_password := Some "zzzz-zzzz" |}.

(** Projects ["p1"] and ["p2"]; the data of ["p2"] cannot be read, the
    inbox answers under ["INBOX"]. *)
Definition two_projects : list ticktick.Project :=
  [{| ticktick.project_id := "p1"; ticktick.project_name := "Home" |};
   {| ticktick.project_id := "p2"; ticktick.project_name := "Work" |}].

Definition project_data (id : string) : option (list Task) :=
  if bool_decide (id = "p1")
  then Some [raw_task None (Some "Pay rent") (Some "2024-05-01") None]
  else if bool_decide (id = "INBOX")
  then Some [raw_task None (Some "Call Bob") None (Some "2024-05-02")]
  else None.

(** Two Graph pages, the second one the last. *)
Definition graph_mail (i : string) (subject : option string) : GraphEmail :=
  {| graph_id := i; graph_subject := subject; graph_from_name := None;
     graph_from_address := Some "ann@example.com";
     graph_receivedDateTime := "2024-05-01T08:00:00Z"; graph_webLink := None;
     graph_flagStatus := Some "flagged" |}.

Definition two_pages (n : nat) : PageResponse :=
  match n with
  | 0%nat => {| page_status_code := 200; page_error_text := EmptyString;
                page_value := [graph_mail "g1" (Some "Hello")];
                page_nextLink := Some "https://graph.microsoft.com/v1.0/next" |}
  | _ => {| page_status_code := 200; page_error_text := EmptyString;
            page_value := [graph_mail "g2" None]; page_nextLink := None |}
  end.

(** Two Gmail pages, the second one the last. *)
Definition two_listings (n : nat) : ListResponse :=
  match n with
  | 0%nat => {| status_code := 200; error_text := EmptyString; messages := ["a"; "b"];
                nextPageToken := Some "page-2" |}
  | _ => last_page ["c"]
  end.

End more_examples.

(** * Properties *)

Import py database oauth providers main props examples.

(** ** The items table *)

Section items_table.
Implicit Types (t : list Row) (r : Row) (batch : list Item).

Lemma filter_all {A} (P : A → Prop) `{!∀ x, Decision (P x)} (l : list A) :
  (∀ x, x ∈ l → P x) → filter P l = l.
Proof.
  induction l as [|a l IH]; intros HP; [done|].
  rewrite filter_cons, decide_True by (apply HP; left).
  f_equal. apply IH. intros x Hx. apply HP. by right.
Qed.

Lemma filter_none {A} (P : A → Prop) `{!∀ x, Decision (P x)} (l : list A) :
  (∀ x, x ∈ l → ¬ P x) → filter P l = [].
Proof.
  induction l as [|a l IH]; intros HP; [done|].
  rewrite filter_cons, decide_False by (apply HP; left).
  apply IH. intros x Hx. apply HP. by right.
Qed.

Lemma insert_desc_perm r l : insert_desc r l ≡ₚ r :: l.
Proof.
  induction l as [|x l IH]; simpl; [done|].
  destruct (date_leb _ _); [done|].
  rewrite IH. apply Permutation_swap.
Qed.

Lemma order_by_date_desc_perm l : order_by_date_desc l ≡ₚ l.
Proof.
  induction l as [|x l IH]; simpl; [done|].
  fold (order_by_date_desc l). by rewrite insert_desc_perm, IH.
Qed.

Lemma get_items_rows a k t :
  get_items a k t ≡ₚ row_data <$> filter (λ r, row_account_id r = a ∧ type_is (Some k) r) t.
Proof.
  unfold get_items, get_items_between. rewrite order_by_date_desc_perm.
  f_equiv. erewrite list_filter_iff; [done|].
  intros r. unfold date_from, date_to. simpl. tauto.
Qed.

Lemma keep_last_subseteq batch : keep_last batch ⊆ batch.
Proof.
  induction batch as [|x l IH]; simpl; [done|].
  case_bool_decide; intros y Hy.
  - right. by apply IH.
  - apply elem_of_cons in Hy as [->|Hy]; [left|right; by apply IH].
Qed.

Lemma keep_last_ids batch i : i ∈ item_id <$> keep_last batch ↔ i ∈ item_id <$> batch.
Proof.
  induction batch as [|x l IH]; simpl; [done|].
  case_bool_decide as Hx; rewrite ?fmap_cons, ?elem_of_cons, IH; [|done].
  split; [tauto|]. intros [->|?]; [done|tauto].
Qed.

Lemma keep_last_NoDup batch : NoDup (item_id <$> keep_last batch).
Proof.
  induction batch as [|x l IH]; simpl; [constructor|].
  case_bool_decide as Hx; [done|].
  rewrite fmap_cons. constructor; [|done]. by rewrite keep_last_ids.
Qed.

Lemma keep_last_id batch : NoDup (item_id <$> batch) → keep_last batch = batch.
Proof.
  induction batch as [|x l IH]; simpl; [done|].
  rewrite NoDup_cons. intros [Hx Hl].
  rewrite bool_decide_eq_false_2 by done. f_equal. by apply IH.
Qed.

(** The table after [upsert_items]: the rows whose id is not in the batch,
    in their order, then one row per id of the batch. *)
Lemma upsert_items_eq now a k batch t :
  upsert_items now a k batch t =
    filter (λ r, row_id r ∉ item_id <$> batch) t ++ (item_row now a k <$> keep_last batch).
Proof.
  unfold upsert_items. revert t.
  induction batch as [|x l IH]; intros t; simpl.
  - rewrite app_nil_r. symmetry. apply filter_all. intros r _. apply not_elem_of_nil.
  - rewrite IH. unfold insert_or_replace. rewrite filter_app, list_filter_filter.
    rewrite <- (assoc_L (++)). f_equal.
    + apply list_filter_iff. intros r. simpl. rewrite elem_of_cons. tauto.
    + rewrite filter_cons, filter_nil. simpl.
      case_bool_decide as Hx.
      * by rewrite decide_False by tauto.
      * by rewrite decide_True by done.
Qed.

Lemma upsert_items_unique now a k batch t :
  unique_ids t → unique_ids (upsert_items now a k batch t).
Proof.
  unfold unique_ids. intros Ht. rewrite upsert_items_eq, fmap_app.
  apply NoDup_app. split; [|split].
  - clear -Ht. induction t as [|r t IH]; [constructor|].
    rewrite fmap_cons in Ht. apply NoDup_cons in Ht as [Hr Ht].
    rewrite filter_cons. destruct (decide _); [|by apply IH].
    rewrite fmap_cons. constructor; [|by apply IH].
    intros (r' & Heq & Hin)%list_elem_of_fmap.
    apply list_elem_of_filter in Hin as [_ Hin].
    apply Hr. rewrite Heq. by apply list_elem_of_fmap_2.
  - intros i (r & -> & Hin)%list_elem_of_fmap.
    apply list_elem_of_filter in Hin as [Hni _].
    rewrite <- list_fmap_compose. simpl.
    change (row_id ∘ item_row now a k) with item_id.
    by rewrite keep_last_ids.
  - rewrite <- list_fmap_compose. apply keep_last_NoDup.
Qed.

Lemma clear_account_items_rows a k t r :
  r ∈ clear_account_items a (Some k) t →
  ¬ (row_account_id r = a ∧ type_is (Some k) r).
Proof.
  unfold clear_account_items, type_is.
  destruct (truthy (Some k)); intros [H _]%list_elem_of_filter; tauto.
Qed.

(** Clearing then writing a batch leaves exactly the batch for that
    account and type. *)
Lemma clear_then_upsert now a k batch t :
  get_items a k (upsert_items now a k batch (clear_account_items a (Some k) t))
    ≡ₚ keep_last batch.
Proof.
  rewrite get_items_rows, upsert_items_eq, filter_app.
  rewrite filter_none, app_nil_l.
  - rewrite filter_all.
    + rewrite <- list_fmap_compose.
      change (row_data ∘ item_row now a k) with (@Datatypes.id Item).
      by rewrite list_fmap_id.
    + intros r (x & -> & _)%list_elem_of_fmap. simpl. split; [done|].
      unfold type_is. by destruct (truthy (Some k)).
  - intros r [_ Hr]%list_elem_of_filter. by apply clear_account_items_rows in Hr.
Qed.

End items_table.

(** ** Running the handlers *)

(** Unfolds the monad of the handlers. *)
Ltac run :=
  cbv [mbind M_bind mret M_ret raise read set_items set_accounts set_oauth_states
       log remote remote_tokens remote_items remote_done try_except] in *;
  simpl in *.

Section handlers.
Implicit Types (w : World) (s : State) (account : Account).

(** [get_valid_token] touches neither the items nor the OAuth states. *)
Lemma get_valid_token_frame w account s x s' :
  get_valid_token w account s = (x, s') →
  items s' = items s ∧ oauth_states s' = oauth_states s.
Proof.
  unfold get_valid_token.
  destruct (negb (truthy _)); [run; by intros [= <- <-]|].
  destruct (_ >? _); [|run; by intros [= <- <-]].
  destruct (negb (truthy _)); [run; by intros [= <- <-]|].
  destruct (get_oauth_provider _); [|run; by intros [= <- <-]].
  run. destruct (reply_tokens _ _); run; by intros [= <- <-].
Qed.

(** Every failure of [get_valid_token] is an [HTTPException]. *)
Lemma get_valid_token_raises w account s e s' :
  get_valid_token w account s = (Raise e, s') → ∃ status detail, e = HTTPException status detail.
Proof.
  unfold get_valid_token.
  destruct (negb (truthy _)); [run; intros [= <- <-]; eauto|].
  destruct (_ >? _); [|run; by intros [= <-]].
  destruct (negb (truthy _)); [run; intros [= <- <-]; eauto|].
  destruct (get_oauth_provider _); [|run; intros [= <- <-]; eauto].
  run. destruct (reply_tokens _ _); run; intros [= <- <-]; eauto.
Qed.

Lemma fetch_fresh_frame w account s x s' :
  fetch_fresh w account s = (x, s') →
  items s' = items s ∧ oauth_states s' = oauth_states s.
Proof.
  unfold fetch_fresh. case_bool_decide.
  { destruct (_ || _); run; [by intros [= <- <-]|].
    destruct (reply_items _ _); run; by intros [= <- <-]. }
  run. destruct (get_valid_token w account s) as [[tok|e] s1] eqn:Htok;
    apply get_valid_token_frame in Htok as [Hi Ho]; [|by intros [= <- <-]].
  rewrite <- Hi, <- Ho.
  repeat case_bool_decide; run;
    repeat match goal with
      | |- context [reply_items ?w ?c] => destruct (reply_items w c); run
      | |- context [negb ?b] => destruct (negb b); run
      end; by intros [= <- <-].
Qed.

(** A fresh answer is the fetched batch, written over the cleared cache. *)
Lemma get_account_items_fresh w account_id force s account r s' :
  get_account account_id (accounts s) = Some account →
  get_account_items w account_id force s = (Ok r, s') →
  resp_cached r = false →
  items s' =
    upsert_items (current_timestamp w) account_id (item_type_of (provider account))
      (resp_items r)
      (clear_account_items account_id (Some (item_type_of (provider account))) (items s)).
Proof.
  intros Hacc. unfold get_account_items. run. rewrite Hacc.
  destruct (use_cache _ _ _); [by intros [= <- <-]|].
  destruct (fetch_fresh w account s) as [[batch|e] s1] eqn:Hf;
    apply fetch_fresh_frame in Hf as [Hi _].
  - intros [= <- <-] _. simpl. by rewrite Hi.
  - destruct e; [by intros [=]|].
    destruct (get_items _ _ _); [by intros [=]|]. by intros [= <- <-].
Qed.

End handlers.

(** ** Ingestion *)

Section ingestion.
Implicit Types (t : list Row) (r : Row) (batch : list Item).

Lemma filter_id_rows now a k (l : list Item) x :
  NoDup (item_id <$> l) → x ∈ l →
  filter (λ r, row_id r = item_id x) (item_row now a k <$> l) = [item_row now a k x].
Proof.
  induction l as [|y l IH]; [by intros _ ?%elem_of_nil|].
  rewrite fmap_cons, NoDup_cons. intros [Hy Hl] Hx.
  rewrite fmap_cons, filter_cons. simpl.
  destruct (decide (item_id y = item_id x)) as [Heq|Hne].
  - f_equal.
    + apply elem_of_cons in Hx as [->|Hx]; [done|].
      exfalso. apply Hy. rewrite Heq. by apply list_elem_of_fmap_2.
    + apply filter_none. intros r (z & -> & Hz)%list_elem_of_fmap. simpl.
      intros Hzx. apply Hy. rewrite Heq, <- Hzx. by apply list_elem_of_fmap_2.
  - apply elem_of_cons in Hx as [->|Hx]; [done|]. by apply IH.
Qed.

(** C3 (as amended).  The primary key is the item id alone.  Ingestion
    keeps the ids of the table pairwise distinct, hence at most one row
    per (account, item id); for every item of the batch the table then
    holds exactly one row with that id, the one written for an item of the
    batch, whichever account held the id before; and the rows whose id is
    not in the batch are neither removed nor changed. *)
Theorem upsert_items_primary_key now a k batch t :
  unique_ids t →
  unique_ids (upsert_items now a k batch t)
  ∧ (∀ x, x ∈ batch →
       ∃ y, y ∈ batch ∧ item_id y = item_id x ∧
         filter (λ r, row_id r = item_id x) (upsert_items now a k batch t)
           = [item_row now a k y])
  ∧ (∀ r, row_id r ∉ item_id <$> batch → (r ∈ upsert_items now a k batch t ↔ r ∈ t)).
Proof.
  intros Ht. split; [by apply upsert_items_unique|]. split.
  - intros x Hx.
    assert (item_id x ∈ item_id <$> keep_last batch) as (y & Hy & Hin)%list_elem_of_fmap
      by (rewrite keep_last_ids; by apply list_elem_of_fmap_2).
    exists y. split; [by apply keep_last_subseteq|]. split; [done|].
    rewrite upsert_items_eq, filter_app, filter_none, app_nil_l.
    + rewrite Hy. apply filter_id_rows; [apply keep_last_NoDup|done].
    + intros r [Hr _]%list_elem_of_filter Hid. apply Hr. rewrite Hid.
      by apply list_elem_of_fmap_2.
  - intros r Hr. rewrite upsert_items_eq, elem_of_app, list_elem_of_filter.
    split; [|tauto]. intros [[_ ?]|(y & -> & Hy)%list_elem_of_fmap]; [done|].
    exfalso. apply Hr. simpl. apply list_elem_of_fmap_2. by apply keep_last_subseteq.
Qed.

Lemma upsert_items_primary_key_witness :
  unique_ids (upsert_items 2000 "A" "email" [mail "m1" (Some "2024-02-02")]
                (items cached_state)).
Proof.
  apply (upsert_items_primary_key 2000 "A" "email" [mail "m1" (Some "2024-02-02")]
           (items cached_state)).
  unfold unique_ids. apply (bool_decide_unpack _). vm_compute. exact I.
Defined.

(** C3 (as stated) fails: account ["B"] holds the row of id ["m1"]; an
    ingestion for account ["A"] of an item with that id removes it. *)
Lemma upsert_items_crosses_accounts :
  let t := upsert_items 1000 "B" "email" [mail "m1" None] [] in
  let r := item_row 1000 "B" "email" (mail "m1" None) in
  unique_ids t ∧ r ∈ t ∧ (row_account_id r ≠ "A")
  ∧ (r ∉ upsert_items 2000 "A" "email" [mail "m1" None] t)
  ∧ get_items "B" "email" (upsert_items 2000 "A" "email" [mail "m1" None] t) = [].
Proof.
  split; [apply (bool_decide_unpack _); vm_compute; exact I|].
  split; [vm_compute; apply list_elem_of_singleton; reflexivity|].
  split; [done|]. split; [|vm_compute; reflexivity].
  vm_compute. intros [=]%list_elem_of_singleton.
Qed.

(** C8.  A fresh answer of [get_account_items] leaves in the table the
    cleared cache with the fetched batch written over it, so that the
    cached items of that account and type are exactly the batch (one per
    id); ingesting an empty batch afterwards leaves none. *)
Theorem fresh_batch_replaces_cache w account_id force s account resp s' :
  get_account account_id (accounts s) = Some account →
  get_account_items w account_id force s = (Ok resp, s') →
  resp_cached resp = false →
  let k := item_type_of (provider account) in
  items s' = upsert_items (current_timestamp w) account_id k (resp_items resp)
               (clear_account_items account_id (Some k) (items s))
  ∧ get_items account_id k (items s') ≡ₚ keep_last (resp_items resp)
  ∧ (NoDup (item_id <$> resp_items resp) →
       get_items account_id k (items s') ≡ₚ resp_items resp)
  ∧ (∀ now, get_items account_id k
              (upsert_items now account_id k []
                 (clear_account_items account_id (Some k) (items s'))) = []).
Proof.
  intros Hacc Hrun Hfresh k.
  pose proof (get_account_items_fresh _ _ _ _ _ _ _ Hacc Hrun Hfresh) as Hs'.
  fold k in Hs'. split; [done|].
  assert (get_items account_id k (items s') ≡ₚ keep_last (resp_items resp)) as Hperm
    by (rewrite Hs'; apply clear_then_upsert).
  split; [done|]. split.
  - intros Hnd. by rewrite Hperm, keep_last_id.
  - intros now. apply Permutation_nil_r. apply (clear_then_upsert now _ _ []).
Qed.

Lemma fresh_batch_replaces_cache_witness :
  get_items "A" "email" (items one_mail_state) ≡ₚ [mail "m9" None].
Proof.
  apply (fresh_batch_replaces_cache one_mail_world "A" true cached_state
           (gmail_account "A" (tokens_until 9000)) one_mail_response one_mail_state).
  - vm_compute; reflexivity.
  - vm_compute; reflexivity.
  - reflexivity.
  - apply (bool_decide_unpack _). vm_compute. exact I.
Defined.

End ingestion.

(** ** Archive *)

Section archive.
Implicit Types (w : World) (s : State) (r : Row).

(** C10.  After a successful archive the cache row is removed by item id
    alone: the table is the old one without the rows of that id, so a row
    of that id is gone whichever account it belongs to, and the rows of
    every other id are kept as they were. *)
Theorem archive_email_deletes_by_id w account_id email_id s v s' :
  archive_email w account_id email_id s = (Ok v, s') →
  items s' = delete_item email_id (items s)
  ∧ (∀ r, row_id r = email_id → r ∉ items s')
  ∧ (∀ r, row_id r ≠ email_id → (r ∈ items s' ↔ r ∈ items s)).
Proof.
  intros Hrun.
  assert (items s' = delete_item email_id (items s)) as Hs'.
  { revert Hrun. unfold archive_email. run.
    destruct (get_account _ _) as [account|]; [|by intros [=]].
    destruct (get_valid_token w account s) as [[tok|e] s1] eqn:Htok; [|by intros [=]].
    apply get_valid_token_frame in Htok as [<- _].
    repeat case_bool_decide; run; try by intros [=].
    all: destruct (reply_done _ _); run; by intros [= _ <-]. }
  split; [done|]. rewrite Hs'. unfold delete_item. split.
  - intros r Hr [Hne _]%list_elem_of_filter. done.
  - intros r Hr. rewrite list_elem_of_filter. tauto.
Qed.

Lemma archive_email_deletes_by_id_witness :
  let r := item_row 1000 "B" "email" (mail "m1" None) in
  r ∈ items shared_id_state ∧ r ∉ items archived_state.
Proof.
  split; [vm_compute; left|].
  apply (archive_email_deletes_by_id (world_at 5000 (inl "unused") (inl "unused"))
           "A" "m1" shared_id_state "ok" archived_state).
  - vm_compute; reflexivity.
  - reflexivity.
Defined.

End archive.

(** ** OAuth states *)

Section oauth_states.
Implicit Types (w : World) (s : State) (st : string).

Lemma authorize_issues w provider account_id s st s0 :
  authorize w provider account_id s = (Ok st, s0) →
  st = token_urlsafe w
  ∧ oauth_states s0 !! st
      = Some {| state_account_id := account_id; state_provider := provider |}.
Proof.
  unfold authorize. destruct (get_oauth_provider _); run; [|by intros [=]].
  intros [= <- <-]. simpl. split; [done|]. apply lookup_insert_eq.
Qed.

Lemma consume_registered st binding s :
  oauth_states s !! st = Some binding → st ≠ EmptyString →
  ∃ s1, consume (Some st) s = (Ok (Some binding), s1)
        ∧ oauth_states s1 = delete st (oauth_states s).
Proof.
  intros Hst Hne. unfold consume. run.
  assert (negb (st =? EmptyString)%string = true) as ->
    by (apply negb_true_iff, String.eqb_neq, Hne).
  rewrite Hst. eauto.
Qed.

Lemma consume_unregistered st s :
  oauth_states s !! st = None → consume (Some st) s = (Ok None, s).
Proof.
  intros Hst. unfold consume. run. rewrite Hst. by destruct (String.eqb st EmptyString).
Qed.

(** A callback without [error] leaves the OAuth states as [consume] left
    them, whatever happens afterwards. *)
Lemma oauth_callback_states w provider code state s :
  ∃ redirect s2,
    oauth_callback w provider code state None s = (Ok redirect, s2)
    ∧ oauth_states s2 = oauth_states (consume state s).2
    ∧ ((consume state s).1 = Ok None → redirect = RedirectError "invalid_state" ∧ s2 = s).
Proof.
  unfold oauth_callback. simpl.
  assert (∃ found s1, consume state s = (Ok found, s1)
                      ∧ (found = None → s1 = s)) as (found & s1 & Hc & Hs1).
  { unfold consume. run. destruct state as [st|]; simpl; [|by eauto].
    destruct (String.eqb st EmptyString); simpl; [by eauto|].
    destruct (_ !! _); [|by eauto].
    eexists _, _. split; [done|]. intros [=]. }
  run. rewrite Hc. simpl. destruct found as [state_data|].
  - destruct (get_oauth_provider provider) as [oauth|]; [|eexists _, _; split; [done|]; split; [done|by intros [=]]].
    destruct (reply_tokens _ _); run.
    + eexists _, _. split; [done|]. split; [done|by intros [=]].
    + destruct (get_account _ _); eexists _, _; (split; [done|]); (split; [done|by intros [=]]).
  - eexists _, _. split; [done|]. rewrite (Hs1 eq_refl). split; [done|]. done.
Qed.

(** C9.  [authorize] registers the binding under the state token.
    Wherever a state token is registered, the lookup of the callback
    answers its binding and removes the entry, a second lookup finds
    nothing, and so does a second callback, however the first one ended. *)
Theorem consume_single_use w provider account_id s st s0 :
  authorize w provider account_id s = (Ok st, s0) → st ≠ EmptyString →
  let binding := {| state_account_id := account_id; state_provider := provider |} in
  oauth_states s0 !! st = Some binding
  ∧ ∀ s', oauth_states s' !! st = Some binding →
      (∃ s1, consume (Some st) s' = (Ok (Some binding), s1)
             ∧ oauth_states s1 !! st = None
             ∧ consume (Some st) s1 = (Ok None, s1))
      ∧ (∀ w1 provider1 code1, ∃ redirect s2,
           oauth_callback w1 provider1 code1 (Some st) None s' = (Ok redirect, s2)
           ∧ oauth_states s2 !! st = None
           ∧ ∀ w2 provider2 code2,
               oauth_callback w2 provider2 code2 (Some st) None s2
                 = (Ok (RedirectError "invalid_state"), s2)).
Proof.
  intros [_ Hissued]%authorize_issues Hne binding. split; [done|].
  intros s' Hreg.
  destruct (consume_registered st binding s' Hreg Hne) as (s1 & Hc & Hs1).
  assert (oauth_states s1 !! st = None) as Hgone by (rewrite Hs1; apply lookup_delete_eq).
  split.
  - exists s1. split; [done|]. split; [done|]. by apply consume_unregistered.
  - intros w1 provider1 code1.
    destruct (oauth_callback_states w1 provider1 code1 (Some st) s')
      as (redirect & s2 & Hcb & Hs2 & _).
    exists redirect, s2. split; [done|]. rewrite Hc in Hs2. simpl in Hs2.
    assert (oauth_states s2 !! st = None) as Hgone2 by (by rewrite Hs2).
    split; [done|]. intros w2 provider2 code2.
    destruct (oauth_callback_states w2 provider2 code2 (Some st) s2)
      as (redirect' & s3 & Hcb' & _ & Hnone).
    rewrite (consume_unregistered _ _ Hgone2) in Hnone.
    destruct (Hnone eq_refl) as [-> ->]. done.
Qed.

Lemma consume_single_use_witness :
  ∃ s1, consume (Some "Zm9vYmFy") issued_state
          = (Ok (Some {| state_account_id := "A"; state_provider := "gmail" |}), s1)
        ∧ consume (Some "Zm9vYmFy") s1 = (Ok None, s1).
Proof.
  destruct (consume_single_use (world_at 5000 (inl "unused") (inl "unused")) "gmail" "A"
              cached_state "Zm9vYmFy" issued_state) as [Hreg Hall].
  - vm_compute; reflexivity.
  - discriminate.
  - destruct (Hall issued_state Hreg) as [(s1 & Hfirst & _ & Hsecond) _].
    exists s1. split; [exact Hfirst|exact Hsecond].
Defined.

End oauth_states.

(** ** Token lifecycle *)

Section token_lifecycle.
Implicit Types (w : World) (s : State) (account : Account).

Lemma gtb_gt (a b : Z) : (a >? b) = true ↔ a > b.
Proof. rewrite Z.gtb_ltb, Z.ltb_lt. lia. Qed.

Lemma gtb_not_gt (a b : Z) : (a >? b) = false ↔ ¬ a > b.
Proof. rewrite Z.gtb_ltb, Z.ltb_ge. lia. Qed.

Lemma get_valid_token_unauthorized w account s :
  truthy (access_token (config account)) = false →
  get_valid_token w account s = (Raise (HTTPException 401 "Account not authorized"), s).
Proof. intros H. unfold get_valid_token. by rewrite H. Qed.

Lemma get_valid_token_fresh w account s :
  truthy (access_token (config account)) = true →
  ¬ utcnow_token w > default 0 (expires_at (config account)) - seconds 300 →
  get_valid_token w account s = (Ok (access_token (config account)), s).
Proof.
  intros Ha Hnow%gtb_not_gt. unfold get_valid_token. by rewrite Ha, Hnow.
Qed.

Lemma get_valid_token_reauthorize w account s :
  truthy (access_token (config account)) = true →
  utcnow_token w > default 0 (expires_at (config account)) - seconds 300 →
  truthy (refresh_token (config account)) = false →
  get_valid_token w account s
    = (Raise (HTTPException 401 "Token expired, please re-authorize"), s).
Proof.
  intros Ha Hnow%gtb_gt Hr. unfold get_valid_token. by rewrite Ha, Hnow, Hr.
Qed.

(** Past the refresh buffer, with a refresh token and an OAuth provider,
    the token endpoint is called once, with the stored refresh token. *)
Lemma get_valid_token_refreshes w account s oauth :
  truthy (access_token (config account)) = true →
  utcnow_token w > default 0 (expires_at (config account)) - seconds 300 →
  truthy (refresh_token (config account)) = true →
  get_oauth_provider (provider account) = Some oauth →
  remote_calls (get_valid_token w account s).2
    = remote_calls s ++ [RefreshToken oauth (default EmptyString (refresh_token (config account)))].
Proof.
  intros Ha Hnow%gtb_gt Hr Ho. unfold get_valid_token. rewrite Ha, Hnow, Hr, Ho.
  run. by destruct (reply_tokens _ _).
Qed.

(** C6.  Without an access token the call fails as not authorized.  With
    one, the stored token is returned with nothing touched if and only if
    [now > expires_at - 300 s] does not hold; when it holds, the call
    fails asking for a new authorization if no refresh token is stored,
    fails on an account whose provider has no OAuth endpoint, and otherwise
    calls the token endpoint; so, for an account with a refresh token and
    an OAuth provider, the endpoint is called if and only if
    [now > expires_at - 300 s].  An expiry 200 s ahead refreshes, one
    400 s ahead does not. *)
Theorem get_valid_token_refresh_buffer w account s :
  let c := config account in
  let expires := default 0 (expires_at c) in
  (truthy (access_token c) = false →
     get_valid_token w account s = (Raise (HTTPException 401 "Account not authorized"), s))
  ∧ (truthy (access_token c) = true →
       (get_valid_token w account s = (Ok (access_token c), s)
        ↔ ¬ utcnow_token w > expires - seconds 300)
       ∧ (utcnow_token w > expires - seconds 300 → truthy (refresh_token c) = false →
            get_valid_token w account s
              = (Raise (HTTPException 401 "Token expired, please re-authorize"), s))
       ∧ (utcnow_token w > expires - seconds 300 → truthy (refresh_token c) = true →
            get_oauth_provider (provider account) = None →
            get_valid_token w account s = (Raise (HTTPException 400 "Unknown provider"), s))
       ∧ (∀ oauth, truthy (refresh_token c) = true →
            get_oauth_provider (provider account) = Some oauth →
            let call := RefreshToken oauth (default EmptyString (refresh_token c)) in
            (remote_calls (get_valid_token w account s).2 = remote_calls s ++ [call]
             ↔ utcnow_token w > expires - seconds 300)
            ∧ (expires = utcnow_token w + seconds 200 →
                 remote_calls (get_valid_token w account s).2 = remote_calls s ++ [call])
            ∧ (expires = utcnow_token w + seconds 400 →
                 get_valid_token w account s = (Ok (access_token c), s)))).
Proof.
  intros c expires. split; [apply get_valid_token_unauthorized|].
  intros Ha. split; [|split; [|split]].
  - split; [|intros Hnot; by apply get_valid_token_fresh].
    intros Hrun Hnow%gtb_gt. revert Hrun. unfold get_valid_token.
    fold c expires. rewrite Ha, Hnow. simpl.
    destruct (truthy (refresh_token c)); simpl; [|by intros [=]].
    destruct (get_oauth_provider _); [|by intros [=]].
    run. destruct (reply_tokens _ _); run; [by intros [=]|].
    intros [= _ Hs]. apply (f_equal remote_calls) in Hs. simpl in Hs.
    apply (f_equal length) in Hs. rewrite length_app in Hs. simpl in Hs. lia.
  - intros Hnow Hr. by apply get_valid_token_reauthorize.
  - intros Hnow%gtb_gt Hr Ho. unfold get_valid_token. fold c expires.
    by rewrite Ha, Hnow, Hr, Ho.
  - intros oauth Hr Ho call. split; [|split].
    + split; [|intros Hnow; by apply get_valid_token_refreshes].
      intros Hcalls.
      destruct (decide (utcnow_token w > expires - seconds 300)) as [|Hnot]; [done|].
      rewrite get_valid_token_fresh in Hcalls by done. simpl in Hcalls.
      apply (f_equal length) in Hcalls. rewrite length_app in Hcalls. simpl in Hcalls. lia.
    + intros Hexp. apply get_valid_token_refreshes; [done| |done..].
      fold c expires. rewrite Hexp. unfold seconds. lia.
    + intros Hexp. apply get_valid_token_fresh; [done|].
      fold c expires. rewrite Hexp. unfold seconds. lia.
Qed.

Lemma get_valid_token_refresh_buffer_witness :
  remote_calls (get_valid_token (world_at 8800 (inr new_tokens) (inl "unused"))
                  (gmail_account "A" (tokens_until 9000)) cached_state).2
    = [RefreshToken GoogleOAuth "rt-1"]
  ∧ get_valid_token (world_at 8600 (inr new_tokens) (inl "unused"))
      (gmail_account "A" (tokens_until 9000)) cached_state
    = (Ok (Some "at-1"), cached_state).
Proof.
  split.
  - pose proof (get_valid_token_refresh_buffer
                  (world_at 8800 (inr new_tokens) (inl "unused"))
                  (gmail_account "A" (tokens_until 9000)) cached_state) as H.
    cbv zeta in H. destruct H as [_ H]. destruct (H eq_refl) as (_ & _ & _ & H3).
    destruct (H3 GoogleOAuth eq_refl eq_refl) as (_ & H200 & _).
    apply H200. reflexivity.
  - pose proof (get_valid_token_refresh_buffer
                  (world_at 8600 (inr new_tokens) (inl "unused"))
                  (gmail_account "A" (tokens_until 9000)) cached_state) as H.
    cbv zeta in H. destruct H as [_ H]. destruct (H eq_refl) as (_ & _ & _ & H3).
    destruct (H3 GoogleOAuth eq_refl eq_refl) as (_ & _ & H400).
    apply H400. reflexivity.
Defined.

(** C7.  When the token endpoint answers, the account's configuration
    stored in the state that comes with the returned token holds the new
    access token, the expiry [now + expires_in] (an hour when the answer
    gives none), and the answered refresh token if there is one, the prior
    one otherwise; the returned token is the new one, and nothing else is
    changed. *)
Theorem refresh_is_stored_then_returned w account s oauth tokens :
  let c := config account in
  get_account (id account) (accounts s) = Some account →
  truthy (access_token c) = true →
  utcnow_token w > default 0 (expires_at c) - seconds 300 →
  truthy (refresh_token c) = true →
  get_oauth_provider (provider account) = Some oauth →
  reply_tokens w (RefreshToken oauth (default EmptyString (refresh_token c))) = inr tokens →
  ∃ s' account',
    get_valid_token w account s = (Ok (tokens_access_token tokens), s')
    ∧ get_account (id account) (accounts s') = Some account'
    ∧ access_token (config account') = tokens_access_token tokens
    ∧ expires_at (config account')
        = Some (utcnow_refreshed w + seconds (default 3600 (tokens_expires_in tokens)))
    ∧ (truthy (tokens_refresh_token tokens) = true →
         refresh_token (config account') = tokens_refresh_token tokens)
    ∧ (truthy (tokens_refresh_token tokens) = false →
         refresh_token (config account') = refresh_token c)
    ∧ config account' = with_tokens c (access_token (config account'))
                          (refresh_token (config account'))
                          (default 0 (expires_at (config account')))
    ∧ (∀ other, other ≠ id account → accounts s' !! other = accounts s !! other)
    ∧ items s' = items s.
Proof.
  intros c Hacc Ha Hnow%gtb_gt Hr Ho Hreply.
  unfold get_valid_token. fold c. rewrite Ha, Hnow, Hr, Ho. run. fold c.
  rewrite Hreply. run. unfold update_account.
  unfold get_account in Hacc. rewrite Hacc.
  eexists _, _. split; [reflexivity|]. simpl.
  split; [apply lookup_insert_eq|]. simpl.
  split; [done|]. split; [done|].
  split; [by intros ->|]. split; [by intros ->|]. split; [done|].
  split; [|done]. intros other Hother. by rewrite lookup_insert_ne.
Qed.

Lemma refresh_is_stored_then_returned_witness :
  ∃ s', get_valid_token (world_at 8800 (inr new_tokens) (inl "unused"))
          (gmail_account "A" (tokens_until 9000)) cached_state = (Ok (Some "at-2"), s')
        ∧ (config <$> get_account "A" (accounts s'))
            = Some (with_tokens (tokens_until 9000) (Some "at-2") (Some "rt-1")
                      (seconds 12400)).
Proof.
  destruct (refresh_is_stored_then_returned
              (world_at 8800 (inr new_tokens) (inl "unused"))
              (gmail_account "A" (tokens_until 9000)) cached_state GoogleOAuth new_tokens)
    as (s' & account' & Hrun & Hget & Hat & Hexp & _ & Hrt & Hcfg & _);
    [vm_compute; reflexivity|reflexivity|reflexivity|reflexivity|reflexivity|reflexivity|].
  exists s'. split; [exact Hrun|].
  change (get_account "A" (accounts s') = Some account') in Hget.
  rewrite Hget. simpl. rewrite Hcfg, Hat, Hexp, (Hrt eq_refl). reflexivity.
Defined.

End token_lifecycle.

(** ** Cache or fetch *)

Section sync_cache.
Implicit Types (w : World) (s : State) (account : Account).

(** The cache-hit path: the stored items are answered and the state,
    hence the log of remote calls, is left as it was. *)
Lemma get_account_items_cache_hit w account_id force s account :
  get_account account_id (accounts s) = Some account →
  let k := item_type_of (provider account) in
  use_cache w force (get_last_sync account_id k (items s)) = true →
  get_account_items w account_id force s
    = (Ok {| resp_items := get_items account_id k (items s); resp_cached := true;
             resp_last_sync := seconds <$> get_last_sync account_id k (items s);
             resp_error := None |}, s).
Proof.
  intros Hacc k Hc. unfold get_account_items. run. rewrite Hacc. fold k. by rewrite Hc.
Qed.

(** The test reads the seconds component of the age, which starts again
    from zero with every whole day. *)
Lemma use_cache_spec w force ls :
  use_cache w force (Some ls) = true
  ↔ force = false ∧ (utcnow_ttl w - seconds ls) `mod` seconds 86400 < seconds 300.
Proof.
  assert (∀ d, d `div` 1000000 < 300 ↔ d < 300000000) as Hd
    by (intros d; Z.div_mod_to_equations; lia).
  unfold use_cache, timedelta_seconds. rewrite andb_true_iff, negb_true_iff, Z.ltb_lt.
  change (seconds 1) with 1000000. change (seconds 300) with 300000000.
  by rewrite Hd.
Qed.

(** Within 300 s of the marker the cache is used. *)
Lemma use_cache_within_ttl w ls :
  0 ≤ utcnow_ttl w - seconds ls < seconds 300 → use_cache w false (Some ls) = true.
Proof.
  intros H. apply use_cache_spec. split; [done|].
  rewrite Z.mod_small; unfold seconds in *; lia.
Qed.

(** C1 at a marker one day and ten seconds old, without [force_refresh]:
    the age is 86410 s, held as one day and a seconds component of 10, and
    the answer comes from the cache with no remote call. *)
Theorem stale_marker_served_from_cache :
  let w := world_at 87410 (inl "unused") (inr [mail "m9" None]) in
  get_last_sync "A" "email" (items cached_state) = Some 1000
  ∧ timedelta_total_seconds (utcnow_ttl w - seconds 1000) = 86410
  ∧ timedelta_days (utcnow_ttl w - seconds 1000) = 1
  ∧ timedelta_seconds (utcnow_ttl w - seconds 1000) = 10
  ∧ get_account_items w "A" false cached_state
      = (Ok {| resp_items := get_items "A" "email" (items cached_state);
               resp_cached := true; resp_last_sync := Some (seconds 1000);
               resp_error := None |}, cached_state).
Proof. repeat split; vm_compute; reflexivity. Qed.

Lemma fetch_fresh_error w account s msg s1 :
  fetch_fresh w account s = (Raise (Error msg), s1) →
  ∃ call, reply_items w call = inl msg ∧ last (remote_calls s1) = Some call.
Proof.
  unfold fetch_fresh. case_bool_decide.
  { destruct (_ || _); run; [by intros [=]|].
    destruct (reply_items _ _) eqn:Hr; run; intros [= <- <-]; simpl.
    eexists. split; [done|]. by rewrite last_snoc. }
  run. destruct (get_valid_token w account s) as [[tok|e] s0] eqn:Htok.
  - repeat case_bool_decide; run;
      repeat match goal with
        | |- context [negb ?b] => destruct (negb b); run
        end; try (by intros [=]).
    all: match goal with
         | |- context [reply_items ?w ?c] => destruct (reply_items w c) eqn:Hr; run
         end; intros [= <- <-]; simpl; eexists; (split; [done|]); by rewrite last_snoc.
  - intros [= -> <-]. by apply get_valid_token_raises in Htok as (? & ? & [=]).
Qed.

(** C2 (as amended).  On the fetch path: an [HTTPException] goes to the
    caller as it is; any other exception comes from the provider adapter,
    and is answered by the cached items with the error attached when some
    are cached, by a 500 otherwise.  Every failure of the token step is an
    [HTTPException], a failed refresh included. *)
Theorem stale_cache_fallback w account_id force s account e s1 :
  get_account account_id (accounts s) = Some account →
  let k := item_type_of (provider account) in
  let cached := get_items account_id k (items s) in
  use_cache w force (get_last_sync account_id k (items s)) = false →
  fetch_fresh w account s = (Raise e, s1) →
  match e with
  | HTTPException _ _ => get_account_items w account_id force s = (Raise e, s1)
  | Error msg =>
      (∃ call, reply_items w call = inl msg ∧ last (remote_calls s1) = Some call)
      ∧ (cached ≠ [] →
           get_account_items w account_id force s
             = (Ok {| resp_items := cached; resp_cached := true;
                      resp_last_sync := None; resp_error := Some msg |}, s1))
      ∧ (cached = [] →
           get_account_items w account_id force s = (Raise (HTTPException 500 msg), s1))
  end
  ∧ (∀ s0 e0 s2, get_valid_token w account s0 = (Raise e0, s2) →
       ∃ status detail, e0 = HTTPException status detail).
Proof.
  intros Hacc k cached Hc Hf. split; [|intros ???; apply get_valid_token_raises].
  assert (get_account_items w account_id force s
          = match e with
            | HTTPException _ _ => (Raise e, s1)
            | Error msg =>
                match cached with
                | _ :: _ => (Ok {| resp_items := cached; resp_cached := true;
                                   resp_last_sync := None; resp_error := Some msg |}, s1)
                | [] => (Raise (HTTPException 500 msg), s1)
                end
            end) as Hrun.
  { unfold get_account_items. run. rewrite Hacc. fold k. rewrite Hc, Hf.
    destruct e as [status detail|msg]; [done|].
    apply fetch_fresh_frame in Hf as [-> _]. fold cached. by destruct cached. }
  destruct e as [status detail|msg]; [done|].
  split; [by eapply fetch_fresh_error|].
  rewrite Hrun. split; by destruct cached.
Qed.

Lemma stale_cache_fallback_witness :
  get_account_items (world_at 1600 (inl "unused") (inl "timeout")) "A" true cached_state
    = (Ok {| resp_items := get_items "A" "email" (items cached_state);
             resp_cached := true; resp_last_sync := None;
             resp_error := Some "timeout" |},
       cached_state_after (GmailGetEmails (Some "at-1") 0 (Some 0))).
Proof.
  pose proof (stale_cache_fallback (world_at 1600 (inl "unused") (inl "timeout")) "A" true
                cached_state (gmail_account "A" (tokens_until 9000)) (Error "timeout")
                (cached_state_after (GmailGetEmails (Some "at-1") 0 (Some 0)))) as H.
  cbv zeta in H.
  destruct H as [(_ & Hsome & _) _]; [vm_compute; reflexivity|reflexivity
                                     |vm_compute; reflexivity|].
  apply Hsome. vm_compute. discriminate.
Defined.

(** C2 (as stated) fails: three items are cached, the token is inside its
    refresh buffer and the token endpoint fails; the answer is a 401, not
    the cached items. *)
Lemma refresh_failure_is_not_masked :
  let w := world_at 8800 (inl "boom") (inr [mail "m9" None]) in
  length (get_items "A" "email" (items cached_state)) = 3%nat
  ∧ get_valid_token w (gmail_account "A" (tokens_until 9000)) cached_state
      = (Raise (HTTPException 401 "Token refresh failed: boom"),
         cached_state_after (RefreshToken GoogleOAuth "rt-1"))
  ∧ get_account_items w "A" true cached_state
      = (Raise (HTTPException 401 "Token refresh failed: boom"),
         cached_state_after (RefreshToken GoogleOAuth "rt-1")).
Proof. repeat split; vm_compute; reflexivity. Qed.

End sync_cache.

(** ** Task normalisation *)

Section task_filter.
Implicit Types (task : Task).

Lemma filter_and_transform_one task :
  filter_and_transform [task]
    = if is_note task || negb (truthy (task_title task))
         || (negb (truthy (task_dueDate task)) && negb (truthy (task_startDate task)))
      then [] else [task_item task].
Proof.
  simpl. destruct (is_note task); [done|].
  destruct (truthy (task_title task)); [|done].
  by destruct (negb (truthy (task_dueDate task)) && negb (truthy (task_startDate task))).
Qed.

Lemma filter_and_transform_cons task l :
  filter_and_transform (task :: l) = filter_and_transform [task] ++ filter_and_transform l.
Proof.
  simpl. destruct (is_note task); [done|].
  destruct (negb (truthy (task_title task))); [done|].
  by destruct (negb (truthy (task_dueDate task)) && negb (truthy (task_startDate task))).
Qed.

(** C4 (as amended).  A raw task is dropped if and only if it is a note,
    or it has no title, or it has neither a due date nor a start date; it
    is kept, as its normalised item, if and only if it is not a note, has
    a title and has one of the dates.  Each task is decided on its own. *)
Theorem task_filter_drops task :
  (filter_and_transform [task] = []
   ↔ is_note task = true ∨ truthy (task_title task) = false
     ∨ (truthy (task_dueDate task) = false ∧ truthy (task_startDate task) = false))
  ∧ (filter_and_transform [task] = [task_item task]
     ↔ is_note task = false ∧ truthy (task_title task) = true
       ∧ (truthy (task_dueDate task) = true ∨ truthy (task_startDate task) = true))
  ∧ (∀ l, filter_and_transform l = l ≫= λ task, filter_and_transform [task]).
Proof.
  split; [|split].
  - rewrite filter_and_transform_one.
    destruct (is_note task), (truthy (task_title task)), (truthy (task_dueDate task)),
      (truthy (task_startDate task)); simpl; split; try done; intuition discriminate.
  - rewrite filter_and_transform_one.
    destruct (is_note task), (truthy (task_title task)), (truthy (task_dueDate task)),
      (truthy (task_startDate task)); simpl; split; try done; intuition discriminate.
  - induction l as [|t l IH]; [done|].
    rewrite filter_and_transform_cons, IH. reflexivity.
Qed.

(** The three scenarios: a note with a due date and a task with neither
    title nor date are dropped, a task with a title and a due date and no
    kind is kept. *)
Lemma task_filter_scenarios :
  filter_and_transform [raw_task (Some "NOTE") (Some "Idea") (Some "2024-05-01") None] = []
  ∧ filter_and_transform [raw_task None None None None] = []
  ∧ filter_and_transform [raw_task None (Some "Pay rent") (Some "2024-05-01") None]
      = [task_item (raw_task None (Some "Pay rent") (Some "2024-05-01") None)].
Proof. repeat split; reflexivity. Qed.

(** C4 (as stated) fails: a task with a title and no date is not a note
    and does not lack both title and date, yet it is dropped; so is a task
    with a date and no title. *)
Lemma titled_task_without_date_is_dropped :
  let titled := raw_task None (Some "Buy milk") None None in
  let dated := raw_task None None (Some "2024-05-01") None in
  (is_note titled = false ∧ truthy (task_title titled) = true
   ∧ filter_and_transform [titled] = [])
  ∧ (is_note dated = false ∧ truthy (task_dueDate dated) = true
     ∧ filter_and_transform [dated] = [])
  ∧ ¬ (filter_and_transform [titled] = []
       ↔ is_note titled = true
         ∨ (truthy (task_title titled) = false
            ∧ truthy (task_dueDate titled) = false
            ∧ truthy (task_startDate titled) = false)).
Proof.
  split; [done|]. split; [done|].
  intros [H _]. destruct (H eq_refl) as [[=]|[[=] _]].
Qed.

End task_filter.

(** ** Rate limits *)

Section rate_limit.
Implicit Types (responses : nat → ListResponse) (fuel k n : nat).

Lemma list_message_ids_retry responses k n tok acc fuel :
  (∀ i, (i < k)%nat → status_code (responses (n + i)%nat) = 429) →
  list_message_ids (k + fuel) responses n tok acc
    = list_message_ids fuel responses (n + k) tok acc.
Proof.
  revert n. induction k as [|k IH]; intros n H429; simpl.
  - by rewrite Nat.add_0_r.
  - rewrite <- (H429 0%nat), Nat.add_0_r, Z.eqb_refl by lia.
    rewrite IH; [f_equal; lia|].
    intros i Hi. rewrite <- (H429 (S i)) by lia. do 2 f_equal. lia.
Qed.

(** C5 (as amended).  In the Gmail listing a rate-limited answer is never
    an error: the same request, with the same page token and the ids
    gathered so far, is sent again, as many times as the answer is 429;
    once an answer that ends the listing arrives, the listing returns what
    it would have returned without the rate-limited answers. *)
Theorem rate_limit_retries_request responses k n tok acc fuel :
  (∀ i, (i < k)%nat → status_code (responses (n + i)%nat) = 429) →
  list_message_ids (k + fuel) responses n tok acc
    = list_message_ids fuel responses (n + k) tok acc
  ∧ (is_success (status_code (responses (n + k)%nat)) = true →
     truthy (nextPageToken (responses (n + k)%nat)) = false →
     list_message_ids (k + S fuel) responses n tok acc
       = Some (Ok (acc ++ messages (responses (n + k)%nat)))).
Proof.
  intros H429. split; [by apply list_message_ids_retry|].
  intros Hok Hlast. rewrite list_message_ids_retry by done. simpl.
  destruct (status_code (responses (n + k)%nat) =? 429) eqn:H; [|by rewrite Hok, Hlast].
  apply Z.eqb_eq in H. by rewrite H in Hok.
Qed.

Lemma rate_limit_retries_request_witness :
  list_message_ids 3 twice_limited 0 None [] = Some (Ok ["a"; "b"]).
Proof.
  apply (rate_limit_retries_request twice_limited 2 0 None [] 0).
  - intros [|[|i]] Hi; [reflexivity|reflexivity|lia].
  - reflexivity.
  - reflexivity.
Defined.

(** C5 (as stated) fails: when every answer is rate limited, the listing
    never returns, whatever the number of iterations. *)
Lemma rate_limited_listing_never_returns :
  ¬ ∃ fuel result, list_message_ids fuel (λ _, rate_limited) 0 None [] = Some result.
Proof.
  intros (fuel & result & H).
  rewrite <- (Nat.add_0_r fuel) in H.
  rewrite (list_message_ids_retry (λ _, rate_limited) fuel 0 None [] 0) in H; [done|].
  by intros.
Qed.

(** The Graph listing has no retry: a rate-limited answer raises. *)
Lemma graph_pages_rate_limited :
  graph_pages 1 graph_limited 0 []
    = Some (Raise (Error "Client error '429 Too Many Requests'")).
Proof. reflexivity. Qed.

End rate_limit.


(** * Further properties *)

Import accounts actions ticktick more_props more_examples.

(** ** Queries on the items table *)

Section table_queries.
Implicit Types (t : list Row) (r : Row).

Lemma insert_desc_hd r l x :
  HdRel newest_first x l → newest_first x r → HdRel newest_first x (insert_desc r l).
Proof.
  intros Hl Hr. destruct l as [|y l]; simpl; [by constructor|].
  destruct (date_leb _ _); constructor; [done|]. by inversion Hl.
Qed.

Lemma date_leb_total (a b : option string) : date_leb a b = false → date_leb b a = true.
Proof.
  destruct a as [x|], b as [y|]; simpl; try done.
  intros H. destruct (String.leb_total x y) as [Hxy|Hyx]; [congruence|done].
Qed.

Lemma insert_desc_sorted r l :
  Sorted newest_first l → Sorted newest_first (insert_desc r l).
Proof.
  induction 1 as [|x l Hl IH Hx]; simpl; [by repeat constructor|].
  destruct (date_leb (row_date x) (row_date r)) eqn:Hxr.
  - constructor; [by constructor|]. by constructor.
  - constructor; [done|]. apply insert_desc_hd; [done|]. by apply date_leb_total.
Qed.

Lemma order_by_date_desc_sorted l : Sorted newest_first (order_by_date_desc l).
Proof.
  induction l as [|x l IH]; simpl; [constructor|]. by apply insert_desc_sorted.
Qed.

(** X1.  [get_items] answers the data of exactly the rows that meet its
    conditions, each once, ordered by date from the latest to the earliest
    with the rows without date last. *)
Theorem get_items_newest_first a ty sd ed t :
  ∃ rows, get_items_between a ty sd ed t = row_data <$> rows
          ∧ rows ≡ₚ filter (selected a ty sd ed) t
          ∧ Sorted newest_first rows
          ∧ (∀ r1 r2, row_date r1 = None → row_date r2 ≠ None →
               ¬ (∃ l1 l2, rows = l1 ++ r1 :: r2 :: l2)).
Proof.
  exists (order_by_date_desc (filter (selected a ty sd ed) t)).
  split; [done|]. split; [apply order_by_date_desc_perm|].
  split; [apply order_by_date_desc_sorted|].
  intros r1 r2 H1 H2 (l1 & l2 & Heq).
  pose proof (order_by_date_desc_sorted (filter (selected a ty sd ed) t)) as Hs.
  rewrite Heq in Hs. clear Heq. induction l1 as [|y l1 IH]; simpl in Hs.
  - apply Sorted_inv in Hs as [_ Hhd]. apply HdRel_inv in Hhd.
    unfold newest_first in Hhd. rewrite H1 in Hhd. by destruct (row_date r2).
  - apply Sorted_inv in Hs as [Hs _]. by apply IH.
Qed.

(** X2.  With a start and an end date, [get_items] answers only rows of
    the account and type that have a date, between the two bounds. *)
Theorem get_items_between_bounds a ty sd ed t x :
  sd ≠ EmptyString → ed ≠ EmptyString →
  x ∈ get_items_between a (Some ty) (Some sd) (Some ed) t →
  ∃ r d, r ∈ t ∧ x = row_data r ∧ row_account_id r = a
         ∧ (ty ≠ EmptyString → row_type r = ty)
         ∧ row_date r = Some d ∧ String.leb sd d = true ∧ String.leb d ed = true.
Proof.
  intros Hsd Hed (r & -> & Hr)%list_elem_of_fmap.
  rewrite order_by_date_desc_perm in Hr.
  apply list_elem_of_filter in Hr as [(Ha & Hty & Hfrom & Hto) Hin].
  unfold date_from, date_to, type_is in *. simpl in *.
  apply String.eqb_neq in Hsd, Hed. rewrite Hsd in Hfrom. rewrite Hed in Hto. simpl in *.
  destruct Hfrom as [Hfrom Hsome], Hto as [Hto _].
  destruct (row_date r) as [d|] eqn:Hd; [|done].
  exists r, d. repeat split; try done.
  intros Hne%String.eqb_neq. rewrite Hne in Hty. simpl in Hty. by injection Hty.
Qed.

Lemma get_items_between_bounds_witness :
  ∃ r d, r ∈ items cached_state ∧ mail "m1" (Some "2024-01-01") = row_data r
         ∧ row_account_id r = "A" ∧ ("email" ≠ EmptyString → row_type r = "email")
         ∧ row_date r = Some d ∧ String.leb "2024-01-01" d = true
         ∧ String.leb d "2024-01-02" = true.
Proof.
  apply (get_items_between_bounds "A" "email" "2024-01-01" "2024-01-02"
           (items cached_state) (mail "m1" (Some "2024-01-01"))).
  - discriminate.
  - discriminate.
  - vm_compute. apply list_elem_of_singleton. reflexivity.
Defined.

Lemma sql_max_spec (l : list Z) :
  match sql_max l with
  | None => l = []
  | Some m => m ∈ l ∧ ∀ x, x ∈ l → x ≤ m
  end.
Proof.
  induction l as [|x l IH]; simpl; [done|]. fold (sql_max l).
  destruct (sql_max l) as [m|].
  - destruct IH as [Hm Hmax]. split.
    + destruct (Z.max_spec x m) as [[_ ->]|[_ ->]]; [by right|by left].
    + intros y [->|Hy]%elem_of_cons; [lia|]. specialize (Hmax y Hy). lia.
  - subst l. split; [by left|]. by intros y ->%list_elem_of_singleton.
Qed.

(** X3.  [get_last_sync] answers nothing exactly when the table has no row
    of the account and type, and otherwise the time of the row of that
    account and type that was written last. *)
Theorem get_last_sync_latest a k t :
  (get_last_sync a k t = None
   ↔ ∀ r, r ∈ t → ¬ (row_account_id r = a ∧ row_type r = k))
  ∧ (∀ m, get_last_sync a k t = Some m →
       (∃ r, r ∈ t ∧ row_account_id r = a ∧ row_type r = k ∧ row_synced_at r = m)
       ∧ ∀ r, r ∈ t → row_account_id r = a → row_type r = k → row_synced_at r ≤ m).
Proof.
  unfold get_last_sync.
  set (rows := filter (λ r, row_account_id r = a ∧ row_type r = k) t).
  pose proof (sql_max_spec (row_synced_at <$> rows)) as Hspec.
  assert (∀ r, r ∈ rows ↔ (row_account_id r = a ∧ row_type r = k) ∧ r ∈ t) as Hrows
    by (intros r; unfold rows; by rewrite list_elem_of_filter).
  split.
  - destruct (sql_max _) as [m|].
    + destruct Hspec as [(r & _ & Hr)%list_elem_of_fmap _]. split; [done|].
      intros Hnone. apply Hrows in Hr as [Hr Hin]. by destruct (Hnone r Hin).
    + apply fmap_nil_inv in Hspec. split; [|done].
      intros _ r Hin Hr. assert (r ∈ rows) as Hin' by (by apply Hrows).
      rewrite Hspec in Hin'. by apply elem_of_nil in Hin'.
  - intros m Hm. rewrite Hm in Hspec. destruct Hspec as [Hin Hmax]. split.
    + apply list_elem_of_fmap in Hin as (r & -> & Hr). apply Hrows in Hr as [[? ?] ?].
      by exists r.
    + intros r Hr Ha Hk. apply Hmax, list_elem_of_fmap_2, Hrows. done.
Qed.

End table_queries.

(** ** Deletions on the items table *)

Section table_deletions.
Implicit Types (t : list Row) (r : Row).

Lemma unique_ids_filter (P : Row → Prop) `{!∀ r, Decision (P r)} t :
  unique_ids t → unique_ids (filter P t).
Proof.
  unfold unique_ids. induction t as [|r t IH]; [done|].
  rewrite fmap_cons, NoDup_cons. intros [Hr Ht].
  rewrite filter_cons. destruct (decide _); [|by apply IH].
  rewrite fmap_cons. constructor; [|by apply IH].
  intros (r' & Heq & [_ Hin]%list_elem_of_filter)%list_elem_of_fmap.
  apply Hr. rewrite Heq. by apply list_elem_of_fmap_2.
Qed.

Lemma filter_filter_implied {A} (P Q : A → Prop) `{!∀ x, Decision (P x)}
    `{!∀ x, Decision (Q x)} (l : list A) :
  (∀ x, Q x → P x) → filter Q (filter P l) = filter Q l.
Proof.
  intros HQP. rewrite list_filter_filter. apply list_filter_iff. intros x.
  split; [tauto|]. intros HQ. split; [done|by apply HQP].
Qed.

(** X4.  The deletions keep the primary key: after [delete_item],
    [clear_account_items] or [delete_account] no two rows share an id. *)
Theorem deletions_keep_unique_ids t :
  unique_ids t →
  (∀ i, unique_ids (delete_item i t))
  ∧ (∀ a ty, unique_ids (clear_account_items a ty t))
  ∧ (∀ a m, unique_ids (delete_account a (m, t)).2).
Proof.
  intros Ht. split; [|split].
  - intros i. by apply unique_ids_filter.
  - intros a ty. unfold clear_account_items. destruct (truthy ty); by apply unique_ids_filter.
  - intros a m. simpl. by apply unique_ids_filter.
Qed.

Lemma deletions_keep_unique_ids_witness :
  unique_ids (clear_account_items "A" (Some "email") (items shared_id_state)).
Proof.
  apply (deletions_keep_unique_ids (items shared_id_state)).
  apply (bool_decide_unpack _). vm_compute. exact I.
Defined.

Lemma type_is_truthy k r : k ≠ EmptyString → type_is (Some k) r ↔ row_type r = k.
Proof.
  intros Hk%String.eqb_neq. unfold type_is. simpl. rewrite Hk. simpl.
  split; [by intros [=]|by intros ->].
Qed.

Lemma get_last_sync_cleared a k t :
  k ≠ EmptyString → get_last_sync a k (clear_account_items a (Some k) t) = None.
Proof.
  intros Hk. unfold get_last_sync. rewrite filter_none; [done|].
  intros r Hr [Ha Hty]. apply clear_account_items_rows in Hr. apply Hr.
  split; [done|]. by apply type_is_truthy.
Qed.

(** X5.  [clear_account_items] of an account and type leaves nothing of
    that account and type, neither items nor sync time, and changes
    nothing for any other account or type; without a type it clears every
    type of the account. *)
Theorem clear_account_items_frame a k t :
  k ≠ EmptyString →
  get_items a k (clear_account_items a (Some k) t) = []
  ∧ get_last_sync a k (clear_account_items a (Some k) t) = None
  ∧ (∀ b k', k' ≠ EmptyString → b ≠ a ∨ k' ≠ k →
       get_items b k' (clear_account_items a (Some k) t) = get_items b k' t
       ∧ get_last_sync b k' (clear_account_items a (Some k) t) = get_last_sync b k' t)
  ∧ (∀ k', get_items a k' (clear_account_items a None t) = []).
Proof.
  intros Hk. pose proof Hk as Hkb%String.eqb_neq.
  assert (clear_account_items a (Some k) t
          = filter (λ r, ¬ (row_account_id r = a ∧ Some (row_type r) = Some k)) t) as Hclear
    by (unfold clear_account_items; simpl; by rewrite Hkb).
  split; [|split; [|split]].
  - unfold get_items, get_items_between. rewrite filter_none; [done|].
    intros r Hr (Ha & Hty & _). apply clear_account_items_rows in Hr. apply Hr. by split.
  - by apply get_last_sync_cleared.
  - intros b k' Hk' Hne. rewrite Hclear. split.
    + unfold get_items, get_items_between. rewrite filter_filter_implied; [done|].
      intros r (Hb & Hty%type_is_truthy & _) [Ha [= Hk2]]; [|done]. destruct Hne; congruence.
    + unfold get_last_sync. rewrite filter_filter_implied; [done|].
      intros r [Hb Hty] [Ha [= Hk2]]. destruct Hne; congruence.
  - intros k'. unfold clear_account_items. simpl.
    unfold get_items, get_items_between. rewrite filter_none; [done|].
    intros r [Hr _]%list_elem_of_filter (Ha & _). done.
Qed.

Lemma clear_account_items_frame_witness :
  get_items "B" "email" (clear_account_items "A" (Some "email") (items shared_id_state))
    = get_items "B" "email" (items shared_id_state).
Proof.
  apply (clear_account_items_frame "A" "email" (items shared_id_state)).
  - discriminate.
  - discriminate.
  - left. discriminate.
Defined.

(** X6.  [remove_account] always answers ["ok"], also for an id that is
    not registered.  Afterwards the account is gone with all its cached
    items, so that [get_account_items] answers 404 for it; every other
    account and its cached items are as before, and no remote call is
    made. *)
Theorem remove_account_cascades a s :
  ∃ s', remove_account a s = (Ok "ok", s')
        ∧ get_account a (accounts s') = None
        ∧ (∀ r, r ∈ items s' ↔ r ∈ items s ∧ row_account_id r ≠ a)
        ∧ (∀ b, b ≠ a →
             get_account b (accounts s') = get_account b (accounts s)
             ∧ ∀ k, get_items b k (items s') = get_items b k (items s))
        ∧ remote_calls s' = remote_calls s
        ∧ oauth_states s' = oauth_states s
        ∧ ∀ w force, get_account_items w a force s'
                     = (Raise (HTTPException 404 "Account not found"), s').
Proof.
  eexists. split; [reflexivity|]. simpl.
  assert (get_account a (delete a (accounts s)) = None) as Hgone by apply lookup_delete_eq.
  split; [done|]. split.
  { intros r. rewrite list_elem_of_filter. tauto. }
  split.
  { intros b Hb. split; [by apply lookup_delete_ne|].
    intros k. unfold get_items, get_items_between. rewrite filter_filter_implied; [done|].
    intros r (Hr & _). congruence. }
  split; [done|]. split; [done|].
  intros w force. unfold get_account_items. run. by rewrite Hgone.
Qed.

(** X7.  Writing the same batch again leaves the table as one write of it:
    the second write wins for every id, whatever account, type and time the
    first one used. *)
Theorem upsert_items_last_write_wins now1 a1 k1 now2 a2 k2 batch t :
  upsert_items now2 a2 k2 batch (upsert_items now1 a1 k1 batch t)
    = upsert_items now2 a2 k2 batch t.
Proof.
  rewrite !upsert_items_eq, filter_app, <- (assoc_L (++)).
  rewrite filter_filter_implied by done. f_equal.
  rewrite filter_none; [done|].
  intros r (x & -> & Hx)%list_elem_of_fmap Hid. apply Hid. simpl.
  apply list_elem_of_fmap_2. by apply keep_last_subseteq.
Qed.

End table_deletions.

(** ** What a request for items does to the state *)

Section request_effects.
Implicit Types (w : World) (s : State) (account : Account).

Lemma item_type_of_ne p : item_type_of p ≠ EmptyString.
Proof. unfold item_type_of. by case_bool_decide. Qed.

(** [get_valid_token] makes no remote call or one call of the token
    endpoint, and changes the accounts only when that call answered. *)
Lemma get_valid_token_calls w account s x s' :
  get_valid_token w account s = (x, s') →
  (remote_calls s' = remote_calls s ∧ accounts s' = accounts s)
  ∨ ∃ oauth,
      let call := RefreshToken oauth (default EmptyString (refresh_token (config account))) in
      remote_calls s' = remote_calls s ++ [call]
      ∧ match reply_tokens w call with
        | inl msg =>
            x = Raise (HTTPException 401 ("Token refresh failed: " +:+ msg))
            ∧ accounts s' = accounts s
        | inr tokens => x = Ok (tokens_access_token tokens)
        end.
Proof.
  unfold get_valid_token.
  destruct (negb (truthy _)); [run; intros [= <- <-]; by left|].
  destruct (_ >? _); [|run; intros [= <- <-]; by left].
  destruct (negb (truthy _)); [run; intros [= <- <-]; by left|].
  destruct (get_oauth_provider _) as [oauth|]; [|run; intros [= <- <-]; by left].
  run. intros Hrun. right. exists oauth. simpl.
  destruct (reply_tokens _ _); run; injection Hrun as <- <-; done.
Qed.

(** X8.  [get_valid_token] persists nothing unless the token endpoint
    answered: when it fails, and when the stored token is still good, the
    accounts, the items and the OAuth states are as before. *)
Theorem get_valid_token_persists_on_success_only w account s x s' :
  get_valid_token w account s = (x, s') →
  items s' = items s ∧ oauth_states s' = oauth_states s
  ∧ (accounts s' ≠ accounts s →
       ∃ oauth tokens,
         reply_tokens w
           (RefreshToken oauth (default EmptyString (refresh_token (config account))))
           = inr tokens
         ∧ x = Ok (tokens_access_token tokens))
  ∧ (∀ e, x = Raise e → accounts s' = accounts s).
Proof.
  intros Hrun. destruct (get_valid_token_frame _ _ _ _ _ Hrun) as [Hi Ho].
  split; [done|]. split; [done|].
  destruct (get_valid_token_calls _ _ _ _ _ Hrun) as [[_ Ha]|(oauth & Hcalls & Hreply)].
  - split; [by intros []|done].
  - destruct (reply_tokens _ _) as [msg|tokens] eqn:Hr.
    + destruct Hreply as [-> Ha]. split; [by intros []|done].
    + subst x. split; [by eauto|by intros e [=]].
Qed.

Lemma get_valid_token_persists_on_success_only_witness :
  accounts (cached_state_after (RefreshToken GoogleOAuth "rt-1")) = accounts cached_state.
Proof.
  destruct (get_valid_token_persists_on_success_only
              (world_at 8800 (inl "boom") (inl "unused"))
              (gmail_account "A" (tokens_until 9000)) cached_state
              (Raise (HTTPException 401 "Token refresh failed: boom"))
              (cached_state_after (RefreshToken GoogleOAuth "rt-1")))
    as (_ & _ & _ & Hfail).
  - vm_compute; reflexivity.
  - exact (Hfail _ eq_refl).
Defined.

Ltac calls_done :=
  repeat split; simpl; rewrite ?app_nil_r, <- ?(assoc_L (++)); try done; try lia;
  repeat constructor.

Lemma fetch_fresh_calls w account s x s' :
  fetch_fresh w account s = (x, s') →
  ∃ refresh listing,
    remote_calls s' = remote_calls s ++ refresh ++ listing
    ∧ (length refresh ≤ 1)%nat ∧ (length listing ≤ 1)%nat
    ∧ Forall is_refresh refresh ∧ Forall is_listing listing.
Proof.
  unfold fetch_fresh. case_bool_decide.
  { destruct (_ || _); run.
    - intros [= <- <-]. exists [], []. calls_done.
    - intros Hrun. eexists [], [_]. destruct (reply_items _ _); run;
        injection Hrun as <- <-; calls_done. }
  run. destruct (get_valid_token w account s) as [[tok|e] s1] eqn:Htok.
  - assert (∃ refresh, remote_calls s1 = remote_calls s ++ refresh
                       ∧ (length refresh ≤ 1)%nat ∧ Forall is_refresh refresh)
      as (refresh & Hcalls & Hlen & Hall).
    { destruct (get_valid_token_calls _ _ _ _ _ Htok) as [[Hc _]|(oauth & Hc & _)].
      - exists []. calls_done.
      - eexists [_]. calls_done. }
    repeat case_bool_decide; run;
      repeat match goal with
        | |- context [negb ?b] => destruct (negb b); run
        end;
      try (intros [= <- <-]; exists refresh, []; by calls_done).
    all: match goal with
         | |- context [reply_items ?w ?c] =>
             intros Hrun; exists refresh, [c]; destruct (reply_items w c); run;
             injection Hrun as <- <-; simpl; rewrite Hcalls; by calls_done
         end.
  - intros [= <- <-].
    destruct (get_valid_token_calls _ _ _ _ _ Htok) as [[Hc _]|(oauth & Hc & _)].
    + exists [], []. calls_done.
    + eexists [_], []. calls_done.
Qed.

(** X9.  One request for items makes at most two remote calls: at most one
    call of the token endpoint, then at most one listing by a provider
    adapter; it never exchanges a code and never archives. *)
Theorem get_account_items_remote_calls w account_id force s x s' :
  get_account_items w account_id force s = (x, s') →
  ∃ refresh listing,
    remote_calls s' = remote_calls s ++ refresh ++ listing
    ∧ (length refresh ≤ 1)%nat ∧ (length listing ≤ 1)%nat
    ∧ Forall is_refresh refresh ∧ Forall is_listing listing.
Proof.
  assert (∀ s0, ∃ refresh listing,
            remote_calls s0 = remote_calls s0 ++ refresh ++ listing
            ∧ (length refresh ≤ 1)%nat ∧ (length listing ≤ 1)%nat
            ∧ Forall is_refresh refresh ∧ Forall is_listing listing) as Hsame.
  { intros s0. exists [], []. calls_done. }
  unfold get_account_items. run.
  destruct (get_account _ _) as [account|]; [|intros [= <- <-]; apply Hsame].
  destruct (use_cache _ _ _); [intros [= <- <-]; apply Hsame|].
  destruct (fetch_fresh w account s) as [[batch|e] s1] eqn:Hf;
    apply fetch_fresh_calls in Hf.
  - by intros [= <- <-].
  - destruct e; [by intros [= <- <-]|].
    destruct (get_items _ _ _); by intros [= <- <-].
Qed.

Lemma get_account_items_remote_calls_witness :
  ∃ refresh listing,
    remote_calls one_mail_state = remote_calls cached_state ++ refresh ++ listing
    ∧ (length refresh ≤ 1)%nat ∧ (length listing ≤ 1)%nat
    ∧ Forall is_refresh refresh ∧ Forall is_listing listing.
Proof.
  apply (get_account_items_remote_calls one_mail_world "A" true cached_state
           (Ok one_mail_response) one_mail_state).
  vm_compute; reflexivity.
Defined.

(** X10.  The cached items change only when a fetch succeeds: whenever the
    request fails, or answers from the cache, with or without an error
    attached, the items table is as before. *)
Theorem get_account_items_writes_on_success_only w account_id force s x s' :
  get_account_items w account_id force s = (x, s') →
  oauth_states s' = oauth_states s
  ∧ (items s' = items s ∨ ∃ resp, x = Ok resp ∧ resp_cached resp = false).
Proof.
  unfold get_account_items. run.
  destruct (get_account _ _) as [account|]; [|by intros [= <- <-]; auto].
  destruct (use_cache _ _ _); [by intros [= <- <-]; auto|].
  destruct (fetch_fresh w account s) as [[batch|e] s1] eqn:Hf;
    apply fetch_fresh_frame in Hf as [Hi Ho].
  - intros [= <- <-]. simpl. split; [done|]. right. eauto.
  - destruct e; [intros [= <- <-]; auto|].
    destruct (get_items _ _ _); intros [= <- <-]; auto.
Qed.

Lemma get_account_items_writes_on_success_only_witness :
  items (cached_state_after (GmailGetEmails (Some "at-1") 0 (Some 0))) = items cached_state
  ∨ ∃ resp,
      Ok {| resp_items := get_items "A" "email" (items cached_state);
            resp_cached := true; resp_last_sync := None;
            resp_error := Some "timeout" |} = Ok resp
      ∧ resp_cached resp = false.
Proof.
  apply (get_account_items_writes_on_success_only
           (world_at 1600 (inl "unused") (inl "timeout")) "A" true cached_state
           (Ok {| resp_items := get_items "A" "email" (items cached_state);
                  resp_cached := true; resp_last_sync := None;
                  resp_error := Some "timeout" |})
           (cached_state_after (GmailGetEmails (Some "at-1") 0 (Some 0)))).
  vm_compute; reflexivity.
Defined.

End request_effects.

(** ** The time to live of the cache *)

Section time_to_live.
Implicit Types (w : World) (s : State) (account : Account).

(** X11.  Without [force_refresh], less than 300 s after the last sync of
    the account, the stored items are answered with [cached] set, and the
    state is left as it was: no remote call is made and the tokens are not
    looked at. *)
Theorem cache_hit_within_ttl w account_id s account ls :
  get_account account_id (accounts s) = Some account →
  get_last_sync account_id (item_type_of (provider account)) (items s) = Some ls →
  0 ≤ utcnow_ttl w - seconds ls < seconds 300 →
  get_account_items w account_id false s
    = (Ok {| resp_items := get_items account_id (item_type_of (provider account)) (items s);
             resp_cached := true; resp_last_sync := Some (seconds ls);
             resp_error := None |}, s).
Proof.
  intros Hacc Hls Hnow.
  rewrite (get_account_items_cache_hit w account_id false s account Hacc).
  - by rewrite Hls.
  - rewrite Hls. by apply use_cache_within_ttl.
Qed.

Lemma cache_hit_within_ttl_witness :
  get_account_items (world_at 1299 (inl "unused") (inl "unused")) "A" false cached_state
    = (Ok {| resp_items := get_items "A" "email" (items cached_state);
             resp_cached := true; resp_last_sync := Some (seconds 1000);
             resp_error := None |}, cached_state).
Proof.
  apply (cache_hit_within_ttl (world_at 1299 (inl "unused") (inl "unused")) "A"
           cached_state (gmail_account "A" (tokens_until 9000)) 1000).
  - vm_compute; reflexivity.
  - vm_compute; reflexivity.
  - cbn. unfold seconds. lia.
Defined.

(** X12.  A forced sync is never answered from the cache alone: when its
    answer has [cached] set, a listing was sent and failed, its error is
    attached, the items are the non-empty stored ones and the table is
    untouched. *)
Theorem sync_account_cached_means_failed w account_id s resp s' :
  sync_account w account_id s = (Ok resp, s') →
  resp_cached resp = true →
  ∃ account msg call,
    get_account account_id (accounts s) = Some account
    ∧ reply_items w call = inl msg ∧ last (remote_calls s') = Some call
    ∧ resp_error resp = Some msg
    ∧ resp_items resp = get_items account_id (item_type_of (provider account)) (items s)
    ∧ resp_items resp ≠ []
    ∧ items s' = items s.
Proof.
  unfold sync_account, get_account_items. run.
  destruct (get_account _ _) as [account|] eqn:Hacc; [|by intros [=]].
  unfold use_cache. simpl.
  destruct (fetch_fresh w account s) as [[batch|e] s1] eqn:Hf.
  - by intros [= <- <-] [=].
  - destruct e as [|msg]; [by intros [=]|].
    destruct (fetch_fresh_frame _ _ _ _ _ Hf) as [Hi _].
    destruct (fetch_fresh_error _ _ _ _ _ Hf) as (call & Hreply & Hlast).
    rewrite Hi. destruct (get_items _ _ _) as [|x l] eqn:Hitems; [by intros [=]|].
    intros [= <- <-] _. exists account, msg, call. simpl. by repeat split.
Qed.

Lemma sync_account_cached_means_failed_witness :
  ∃ account msg call,
    get_account "A" (accounts cached_state) = Some account
    ∧ reply_items (world_at 1600 (inl "unused") (inl "timeout")) call = inl msg
    ∧ last (remote_calls (cached_state_after (GmailGetEmails (Some "at-1") 0 (Some 0))))
        = Some call
    ∧ Some "timeout" = Some msg
    ∧ get_items "A" "email" (items cached_state)
        = get_items "A" (item_type_of (provider account)) (items cached_state)
    ∧ get_items "A" "email" (items cached_state) ≠ []
    ∧ items (cached_state_after (GmailGetEmails (Some "at-1") 0 (Some 0)))
        = items cached_state.
Proof.
  apply (sync_account_cached_means_failed (world_at 1600 (inl "unused") (inl "timeout")) "A"
           cached_state
           {| resp_items := get_items "A" "email" (items cached_state);
              resp_cached := true; resp_last_sync := None;
              resp_error := Some "timeout" |}
           (cached_state_after (GmailGetEmails (Some "at-1") 0 (Some 0)))).
  - vm_compute; reflexivity.
  - reflexivity.
Defined.

Lemma sql_max_constant {A} (now : Z) (l : list A) :
  l ≠ [] → sql_max ((λ _, now) <$> l) = Some now.
Proof.
  induction l as [|x l IH]; [done|]. intros _. destruct l as [|y l]; [done|].
  change (sql_max ((λ _, now) <$> x :: y :: l))
    with (Some (match sql_max ((λ _, now) <$> y :: l) with
                | Some m => Z.max now m
                | None => now
                end)).
  rewrite IH by done. by rewrite Z.max_id.
Qed.

Lemma keep_last_nil batch : keep_last batch = [] → batch = [].
Proof.
  destruct batch as [|x l]; [done|]. intros Hnil.
  assert (item_id x ∈ item_id <$> keep_last (x :: l)) as Hin
    by (rewrite keep_last_ids, fmap_cons; left).
  rewrite Hnil in Hin. by apply elem_of_nil in Hin.
Qed.

Lemma get_last_sync_upsert now a k batch t :
  k ≠ EmptyString → batch ≠ [] →
  get_last_sync a k (upsert_items now a k batch (clear_account_items a (Some k) t))
    = Some now.
Proof.
  intros Hk Hbatch. unfold get_last_sync.
  rewrite upsert_items_eq, filter_app, filter_none, app_nil_l.
  - rewrite filter_all by (by intros r (x & -> & _)%list_elem_of_fmap).
    rewrite <- list_fmap_compose. apply (sql_max_constant now).
    intros Hnil. by apply Hbatch, keep_last_nil.
  - intros r [_ Hr]%list_elem_of_filter [Ha Hty].
    apply clear_account_items_rows in Hr. apply Hr. split; [done|].
    by apply type_is_truthy.
Qed.

(** The account of a request is still registered afterwards, under the
    same provider. *)
Lemma get_account_items_account w account_id force s account x s' :
  get_account account_id (accounts s) = Some account →
  id account = account_id →
  get_account_items w account_id force s = (x, s') →
  ∃ account', get_account account_id (accounts s') = Some account'
              ∧ provider account' = provider account.
Proof.
  intros Hacc Hid.
  assert (∀ y s1, get_valid_token w account s = (y, s1) →
            ∃ account', get_account account_id (accounts s1) = Some account'
                        ∧ provider account' = provider account) as Htoken.
  { unfold get_valid_token. intros y s1.
    destruct (negb (truthy _)); [run; intros [= <- <-]; eauto|].
    destruct (_ >? _); [|run; intros [= <- <-]; eauto].
    destruct (negb (truthy _)); [run; intros [= <- <-]; eauto|].
    destruct (get_oauth_provider _); [|run; intros [= <- <-]; eauto].
    run. destruct (reply_tokens _ _); run; intros [= <- <-]; simpl; [eauto|].
    unfold update_account, get_account in *. rewrite Hid, Hacc.
    eexists. by rewrite lookup_insert_eq. }
  assert (∀ y s1, fetch_fresh w account s = (y, s1) →
            ∃ account', get_account account_id (accounts s1) = Some account'
                        ∧ provider account' = provider account) as Hfetch.
  { unfold fetch_fresh. intros y s1. case_bool_decide.
    { destruct (_ || _); run; [intros [= <- <-]; eauto|].
      destruct (reply_items _ _); run; intros [= <- <-]; eauto. }
    run. destruct (get_valid_token w account s) as [[tok|e] s0];
      specialize (Htoken _ _ eq_refl); [|by intros [= <- <-]].
    repeat case_bool_decide; run;
      repeat match goal with
        | |- context [reply_items ?w ?c] => destruct (reply_items w c); run
        | |- context [negb ?b] => destruct (negb b); run
        end; by intros [= <- <-]. }
  unfold get_account_items. run. rewrite Hacc.
  destruct (use_cache _ _ _); [intros [= <- <-]; eauto|].
  destruct (fetch_fresh w account s) as [[batch|e] s1]; specialize (Hfetch _ _ eq_refl).
  - by intros [= <- <-].
  - destruct e; [by intros [= <- <-]|]. destruct (get_items _ _ _); by intros [= <- <-].
Qed.

(** X13.  After a fetch that answered an empty batch there is no sync time,
    so the next request fetches again, however early it comes.  After a
    fetch that answered items, the sync time is the time of the write, and
    a request without [force_refresh] less than 300 s later is answered
    from the cache, with the items of the batch and without error. *)
Theorem fresh_fetch_then_cache w account_id force s account resp s' :
  get_account account_id (accounts s) = Some account →
  id account = account_id →
  get_account_items w account_id force s = (Ok resp, s') →
  resp_cached resp = false →
  let k := item_type_of (provider account) in
  (resp_items resp = [] →
     get_last_sync account_id k (items s') = None
     ∧ ∀ w', use_cache w' false (get_last_sync account_id k (items s')) = false)
  ∧ (resp_items resp ≠ [] →
       get_last_sync account_id k (items s') = Some (current_timestamp w)
       ∧ ∀ w', 0 ≤ utcnow_ttl w' - seconds (current_timestamp w) < seconds 300 →
           ∃ resp', get_account_items w' account_id false s' = (Ok resp', s')
                    ∧ resp_cached resp' = true ∧ resp_error resp' = None
                    ∧ resp_items resp' ≡ₚ keep_last (resp_items resp)).
Proof.
  intros Hacc Hid Hrun Hfresh k.
  pose proof (get_account_items_fresh _ _ _ _ _ _ _ Hacc Hrun Hfresh) as Hs'.
  fold k in Hs'.
  assert (k ≠ EmptyString) as Hk by apply item_type_of_ne.
  split.
  - intros Hnil. rewrite Hs', Hnil. simpl.
    by rewrite (get_last_sync_cleared account_id k (items s) Hk).
  - intros Hne.
    assert (get_last_sync account_id k (items s') = Some (current_timestamp w)) as Hls
      by (rewrite Hs'; by apply get_last_sync_upsert).
    split; [done|]. intros w' Hw'.
    destruct (get_account_items_account _ _ _ _ _ _ _ Hacc Hid Hrun)
      as (account' & Hacc' & Hprov).
    eexists. split.
    + apply (get_account_items_cache_hit w' account_id false s' account' Hacc').
      rewrite Hprov. fold k. rewrite Hls. by apply use_cache_within_ttl.
    + simpl. split; [done|]. split; [done|].
      rewrite Hprov. fold k. rewrite Hs'. apply clear_then_upsert.
Qed.

Lemma fresh_fetch_then_cache_witness :
  get_last_sync "A" "email" (items one_mail_state) = Some 5000.
Proof.
  apply (fresh_fetch_then_cache one_mail_world "A" true cached_state
           (gmail_account "A" (tokens_until 9000)) one_mail_response one_mail_state).
  - vm_compute; reflexivity.
  - reflexivity.
  - vm_compute; reflexivity.
  - reflexivity.
  - discriminate.
Defined.

End time_to_live.

(** ** Archive, failing *)

Section archive_failure.
Implicit Types (w : World) (s : State).

(** X14.  When [archive_email] fails, be it at the account lookup, at the
    token step, on a provider without archive or at the remote call, the
    cached row stays: the items table is as before. *)
Theorem archive_email_failure_keeps_items w account_id email_id s e s' :
  archive_email w account_id email_id s = (Raise e, s') →
  items s' = items s ∧ oauth_states s' = oauth_states s.
Proof.
  unfold archive_email. run.
  destruct (get_account _ _) as [account|]; [|by intros [= _ <-]].
  destruct (get_valid_token w account s) as [[tok|e0] s1] eqn:Htok;
    apply get_valid_token_frame in Htok as [Hi Ho]; [|by intros [= _ <-]].
  repeat case_bool_decide; run; try by intros [= _ <-].
  all: destruct (reply_done _ _); run; by intros [= _ <-].
Qed.

Lemma archive_email_failure_keeps_items_witness :
  items failed_archive_state = items shared_id_state
  ∧ oauth_states failed_archive_state = oauth_states shared_id_state.
Proof.
  apply (archive_email_failure_keeps_items (failing_archive_world 5000) "A" "m2"
           shared_id_state (Error "503 Service Unavailable") failed_archive_state).
  vm_compute; reflexivity.
Defined.

End archive_failure.

(** ** The OAuth handshake *)

Section handshake.
Implicit Types (w : World) (s : State) (st : string).

(** X15.  [authorize] answers a state token exactly for the four provider
    names that have an OAuth endpoint, registering the binding under the
    token and leaving every other entry alone; for any other name, ["yahoo"]
    and ["icloud"] included, it fails with a 400 and registers nothing. *)
Theorem authorize_known_providers w provider account_id s :
  (provider ∈ ["office365"; "office365-shared"; "gmail"; "ticktick"] →
     ∃ s', authorize w provider account_id s = (Ok (token_urlsafe w), s')
           ∧ oauth_states s' !! token_urlsafe w
               = Some {| state_account_id := account_id; state_provider := provider |}
           ∧ (∀ st, st ≠ token_urlsafe w → oauth_states s' !! st = oauth_states s !! st)
           ∧ accounts s' = accounts s ∧ items s' = items s
           ∧ remote_calls s' = remote_calls s)
  ∧ (provider ∉ ["office365"; "office365-shared"; "gmail"; "ticktick"] →
       authorize w provider account_id s
         = (Raise (HTTPException 400 ("Unknown provider: " +:+ provider)), s)).
Proof.
  unfold authorize, get_oauth_provider. rewrite !elem_of_cons, elem_of_nil. split.
  - intros Hin. eexists.
    repeat case_bool_decide; run;
      try (split; [reflexivity|]; simpl; split; [apply lookup_insert_eq|];
           split; [by intros st Hst; apply lookup_insert_ne|done]).
    exfalso. tauto.
  - intros Hnot. repeat case_bool_decide; try done; exfalso; tauto.
Qed.

Lemma authorize_known_providers_witness :
  authorize (world_at 5000 (inl "unused") (inl "unused")) "yahoo" "Y" yahoo_state
    = (Raise (HTTPException 400 "Unknown provider: yahoo"), yahoo_state).
Proof.
  apply (authorize_known_providers (world_at 5000 (inl "unused") (inl "unused"))
           "yahoo" "Y" yahoo_state).
  rewrite !elem_of_cons, elem_of_nil.
  intros [H|[H|[H|[H|[]]]]]; discriminate H.
Defined.

(** X16.  [oauth_callback] never raises and never touches the items.  When
    it redirects with an error, no account is changed; when it redirects
    with success, the account is the one bound to the state token, it was
    registered before, and no other account is changed.  No account is ever
    added or removed. *)
Theorem oauth_callback_touches_bound_account w provider code state error s x s' :
  oauth_callback w provider code state error s = (x, s') →
  ∃ redirect,
    x = Ok redirect
    ∧ items s' = items s
    ∧ dom (accounts s') = dom (accounts s)
    ∧ match redirect with
      | RedirectError _ => accounts s' = accounts s
      | RedirectSuccess account_id =>
          (∃ st binding, state = Some st ∧ oauth_states s !! st = Some binding
                         ∧ state_account_id binding = account_id)
          ∧ ∀ other, other ≠ account_id → accounts s' !! other = accounts s !! other
      end.
Proof.
  unfold oauth_callback.
  destruct (truthy error); [run; intros [= <- <-]; eauto|].
  unfold consume. run.
  destruct state as [st|]; simpl; [|intros [= <- <-]; eauto].
  destruct (String.eqb st EmptyString); simpl; [intros [= <- <-]; eauto|].
  destruct (oauth_states s !! st) as [binding|] eqn:Hst; [|intros [= <- <-]; eauto].
  run. destruct (get_oauth_provider provider); [|intros [= <- <-]; eauto].
  destruct (reply_tokens _ _); run; [intros [= <- <-]; eauto|].
  unfold get_account, update_account.
  destruct (accounts s !! state_account_id binding) as [account|] eqn:Hacc;
    intros [= <- <-]; simpl; [|eauto].
  eexists. split; [done|]. split; [done|]. rewrite Hacc. split.
  - rewrite dom_insert_L. apply elem_of_dom_2 in Hacc.
    apply (anti_symm (⊆)); intros k; rewrite elem_of_union, elem_of_singleton;
      [by intros [->|?]|by right].
  - split; [by eauto|]. intros other Hne. by rewrite lookup_insert_ne.
Qed.

Lemma oauth_callback_touches_bound_account_witness :
  ∃ redirect,
    Ok (RedirectError "access_denied") = Ok redirect
    ∧ items issued_state = items issued_state
    ∧ dom (accounts issued_state) = dom (accounts issued_state)
    ∧ match redirect with
      | RedirectError _ => accounts issued_state = accounts issued_state
      | RedirectSuccess account_id =>
          (∃ st binding, Some "Zm9vYmFy" = Some st
                         ∧ oauth_states issued_state !! st = Some binding
                         ∧ state_account_id binding = account_id)
          ∧ ∀ other, other ≠ account_id →
              accounts issued_state !! other = accounts issued_state !! other
      end.
Proof.
  apply (oauth_callback_touches_bound_account
           (world_at 5000 (inl "unused") (inl "unused")) "gmail" None (Some "Zm9vYmFy")
           (Some "access_denied") issued_state (Ok (RedirectError "access_denied"))
           issued_state).
  reflexivity.
Defined.

(** X17.  A callback that carries [error] leaves the state token
    registered: the handshake can still be completed by a later callback
    with the same token. *)
Theorem oauth_callback_error_keeps_token w provider code st error s binding :
  truthy error = true →
  oauth_states s !! st = Some binding → st ≠ EmptyString →
  oauth_callback w provider code (Some st) error s
    = (Ok (RedirectError (default EmptyString error)), s)
  ∧ ∃ s1, consume (Some st) s = (Ok (Some binding), s1).
Proof.
  intros Herr Hst Hne. split.
  - unfold oauth_callback. by rewrite Herr.
  - destruct (consume_registered st binding s Hst Hne) as (s1 & Hc & _). eauto.
Qed.

Lemma oauth_callback_error_keeps_token_witness :
  oauth_callback (world_at 5000 (inl "unused") (inl "unused")) "gmail" None
    (Some "Zm9vYmFy") (Some "access_denied") issued_state
  = (Ok (RedirectError "access_denied"), issued_state).
Proof.
  apply (oauth_callback_error_keeps_token
           (world_at 5000 (inl "unused") (inl "unused")) "gmail" None "Zm9vYmFy"
           (Some "access_denied") issued_state
           {| state_account_id := "A"; state_provider := "gmail" |}).
  - reflexivity.
  - vm_compute; reflexivity.
  - discriminate.
Defined.

(** X18.  A callback with a registered state token whose code exchange
    answers stores, for the account bound to the token, the answered access
    token, the answered refresh token (none when the answer has none) and
    the expiry [now + expires_in] (an hour by default), keeping the other
    settings; the code is exchanged at the endpoint of the provider named
    in the callback's path, whichever provider the token was issued for;
    the token is consumed. *)
Theorem oauth_callback_stores_tokens w provider code st s binding oauth tokens account :
  st ≠ EmptyString →
  oauth_states s !! st = Some binding →
  get_oauth_provider provider = Some oauth →
  reply_tokens w (ExchangeCode oauth code) = inr tokens →
  get_account (state_account_id binding) (accounts s) = Some account →
  ∃ s' account',
    oauth_callback w provider code (Some st) None s
      = (Ok (RedirectSuccess (state_account_id binding)), s')
    ∧ get_account (state_account_id binding) (accounts s') = Some account'
    ∧ config account'
        = with_tokens (config account) (tokens_access_token tokens)
            (tokens_refresh_token tokens)
            (utcnow_callback w + seconds (default 3600 (tokens_expires_in tokens)))
    ∧ database.provider account' = database.provider account
    ∧ oauth_states s' = delete st (oauth_states s)
    ∧ remote_calls s' = remote_calls s ++ [ExchangeCode oauth code]
    ∧ items s' = items s.
Proof.
  intros Hne Hst Ho Hreply Hacc.
  destruct (consume_registered st binding s Hst Hne) as (s1 & Hc & Hs1).
  unfold oauth_callback. simpl. run. rewrite Hc. simpl. rewrite Ho. run.
  assert (accounts s1 = accounts s ∧ items s1 = items s
          ∧ remote_calls s1 = remote_calls s) as (Ha1 & Hi1 & Hr1).
  { revert Hc. unfold consume. run. rewrite Hst.
    destruct (String.eqb st EmptyString); [by intros [=]|]. by intros [= <-]. }
  rewrite Hreply. run. rewrite Ha1, Hacc.
  eexists _, _. split; [reflexivity|]. simpl.
  unfold update_account, get_account in *. rewrite Hacc.
  split; [apply lookup_insert_eq|]. simpl. by rewrite Hs1, Hi1, Hr1.
Qed.

Lemma oauth_callback_stores_tokens_witness :
  ∃ s', oauth_callback (world_at 5000 (inr new_tokens) (inl "unused")) "gmail"
          (Some "code-1") (Some "Zm9vYmFy") None issued_state
        = (Ok (RedirectSuccess "A"), s')
        ∧ (config <$> get_account "A" (accounts s'))
            = Some (with_tokens (tokens_until 9000) (Some "at-2") None (seconds 8600))
        ∧ remote_calls s' = [ExchangeCode GoogleOAuth (Some "code-1")].
Proof.
  destruct (oauth_callback_stores_tokens (world_at 5000 (inr new_tokens) (inl "unused"))
              "gmail" (Some "code-1") "Zm9vYmFy" issued_state
              {| state_account_id := "A"; state_provider := "gmail" |}
              GoogleOAuth new_tokens (gmail_account "A" (tokens_until 9000)))
    as (s' & account' & Hrun & Hget & Hcfg & _ & _ & Hcalls & _);
    [discriminate|vm_compute; reflexivity|reflexivity|reflexivity
    |vm_compute; reflexivity|].
  exists s'. split; [exact Hrun|]. split; [|exact Hcalls].
  change (get_account "A" (accounts s') = Some account') in Hget.
  rewrite Hget. simpl. rewrite Hcfg. reflexivity.
Defined.

End handshake.

(** ** Providers on the fetch path *)

Section provider_paths.
Implicit Types (w : World) (s : State) (account : Account).



(** X20.  For an iCloud account the tokens play no part: with an address
    and an app-specific password stored, a fetch makes the one listing call
    with them and answers its batch, whatever the tokens are; without them
    it fails with a 401 and makes no call. *)
Theorem icloud_fetch_uses_password w account_id force s account :
  get_account account_id (accounts s) = Some account →
  provider account = "icloud" →
  use_cache w force (get_last_sync account_id "email" (items s)) = false →
  let c := config account in
  (truthy (icloud_email c) = false ∨ truthy (icloud_app_password c) = false →
     get_account_items w account_id force s
       = (Raise (HTTPException 401 "iCloud credentials not configured"), s))
  ∧ (truthy (icloud_email c) = true → truthy (icloud_app_password c) = true →
       let call := ICloudGetEmails (default EmptyString (icloud_email c))
                     (default EmptyString (icloud_app_password c))
                     (start_of_week_paris w) in
       ∀ batch, reply_items w call = inr batch →
         ∃ s', get_account_items w account_id force s
                 = (Ok {| resp_items := batch; resp_cached := false;
                          resp_last_sync := Some (utcnow_response w);
                          resp_error := None |}, s')
               ∧ remote_calls s' = remote_calls s ++ [call]
               ∧ accounts s' = accounts s).
Proof.
  intros Hacc Hp Hc c.
  assert (item_type_of (provider account) = "email") as Hty by (by rewrite Hp).
  split.
  - intros Hmissing. unfold get_account_items. run. rewrite Hacc, Hty, Hc.
    unfold fetch_fresh. rewrite bool_decide_eq_true_2 by done. fold c.
    by destruct Hmissing as [-> | ->]; rewrite ?orb_true_r.
  - intros He Hpw call batch Hreply. unfold get_account_items. run.
    rewrite Hacc, Hty, Hc.
    unfold fetch_fresh. rewrite bool_decide_eq_true_2 by done. fold c.
    rewrite He, Hpw. run. fold call. rewrite Hreply. run.
    eexists. split; [reflexivity|]. done.
Qed.

Lemma icloud_fetch_uses_password_witness :
  ∃ s', get_account_items (world_at 5000 (inl "unused") (inr [mail "m9" None])) "I" false
          icloud_state
        = (Ok {| resp_items := [mail "m9" None]; resp_cached := false;
                 resp_last_sync := Some (seconds 5000); resp_error := None |}, s')
        ∧ remote_calls s' = [ICloudGetEmails "ann@icloud.com" "abcd-efgh" 0].
Proof.
  pose proof (icloud_fetch_uses_password
                (world_at 5000 (inl "unused") (inr [mail "m9" None])) "I" false
                icloud_state icloud_account) as H.
  cbv zeta in H. destruct H as [_ H]; [vm_compute; reflexivity|reflexivity|reflexivity|].
  destruct (H eq_refl eq_refl [mail "m9" None] eq_refl) as (s' & Hrun & Hcalls & _).
  exists s'. split; [exact Hrun|exact Hcalls].
Defined.

End provider_paths.

(** ** Account routes *)

Section account_routes.
Implicit Types (s : State) (account : Account).

(** X21.  [add_account] refuses a Yahoo account without address and an
    iCloud account without address or password, and any failure leaves the
    state as it was.  On success the account is new under the id
    ["acc_" + hex], it holds no token, so that [get_valid_token] fails for
    it as not authorized until a handshake completes, and nothing else is
    changed. *)
Theorem add_account_is_unauthorized hex9 request s :
  (create_provider request = "yahoo" → truthy (create_yahoo_email request) = false →
     add_account hex9 request s
       = (Raise (HTTPException 400 "Yahoo requires email address"), s))
  ∧ (create_provider request = "icloud" →
     truthy (create_icloud_email request) = false
     ∨ truthy (create_icloud_app_password request) = false →
     add_account hex9 request s
       = (Raise (HTTPException 400 "iCloud requires email and app-specific password"), s))
  ∧ (∀ e s', add_account hex9 request s = (Raise e, s') → s' = s)
  ∧ (∀ info s', add_account hex9 request s = (Ok info, s') →
       info_id info = "acc_" +:+ hex9
       ∧ get_account (info_id info) (accounts s) = None
       ∧ (∀ other, other ≠ info_id info → accounts s' !! other = accounts s !! other)
       ∧ items s' = items s ∧ remote_calls s' = remote_calls s
       ∧ ∃ account, get_account (info_id info) (accounts s') = Some account
                    ∧ provider account = create_provider request
                    ∧ access_token (config account) = None
                    ∧ refresh_token (config account) = None
                    ∧ ∀ w s0, get_valid_token w account s0
                              = (Raise (HTTPException 401 "Account not authorized"), s0)).
Proof.
  unfold add_account, create_account. split; [|split; [|split]].
  - intros -> ->. reflexivity.
  - intros -> H. rewrite bool_decide_eq_false_2 by done. simpl.
    by destruct H as [-> | ->]; rewrite ?orb_true_r.
  - intros e s'. destruct (_ && _); [run; by intros [= _ <-]|].
    destruct (_ && _); [run; by intros [= _ <-]|].
    destruct (accounts s !! _); [|by intros [=]]. intros [= _ <-]. by destruct s.
  - intros info s'. destruct (_ && _); [by intros [=]|].
    destruct (_ && _); [by intros [=]|].
    destruct (accounts s !! _) eqn:Hnew; [by intros [=]|].
    intros [= <- <-]. simpl. split; [done|]. split; [done|].
    split; [by intros other Hne; rewrite lookup_insert_ne|]. split; [done|]. split; [done|].
    eexists. split; [apply lookup_insert_eq|]. simpl.
    split; [done|]. split; [by case_bool_decide|]. split; [by case_bool_decide|].
    intros w s0. unfold get_valid_token. simpl. by case_bool_decide.
Qed.

Lemma add_account_is_unauthorized_witness :
  get_account "acc_0123abcde" (accounts cached_state) = None
  ∧ add_account "0123abcde" new_gmail cached_state
    = (Ok {| info_id := "acc_0123abcde"; info_name := "Work"; info_provider := "gmail";
             info_email := EmptyString; info_color := "#0078d4" |}, new_gmail_state).
Proof.
  pose proof (add_account_is_unauthorized "0123abcde" new_gmail cached_state)
    as (_ & _ & _ & H).
  assert (add_account "0123abcde" new_gmail cached_state
          = (Ok {| info_id := "acc_0123abcde"; info_name := "Work";
                   info_provider := "gmail"; info_email := EmptyString;
                   info_color := "#0078d4" |}, new_gmail_state)) as Hrun
    by (vm_compute; reflexivity).
  destruct (H _ _ Hrun) as (_ & Hnew & _). split; [exact Hnew|exact Hrun].
Defined.

(** X22.  A PATCH of an account fails with a 404, changing nothing, when
    the account is not registered.  Otherwise it answers ["ok"] and can
    change the name, the colour, the shared mailbox and the Gmail account
    number only: the tokens, the expiry, the provider, the address and the
    iCloud credentials stay as they were, also when the request carries
    iCloud credentials; an empty name or colour changes nothing; no other
    account and no item is touched. *)
Theorem update_account_details_keeps_credentials account_id updates s :
  (get_account account_id (accounts s) = None →
     update_account_details account_id updates s
       = (Raise (HTTPException 404 "Account not found"), s))
  ∧ (∀ account, get_account account_id (accounts s) = Some account →
       ∃ s' account',
         update_account_details account_id updates s = (Ok "ok", s')
         ∧ get_account account_id (accounts s') = Some account'
         ∧ id account' = id account ∧ provider account' = provider account
         ∧ email account' = email account
         ∧ access_token (config account') = access_token (config account)
         ∧ refresh_token (config account') = refresh_token (config account)
         ∧ expires_at (config account') = expires_at (config account)
         ∧ icloud_email (config account') = icloud_email (config account)
         ∧ icloud_app_password (config account') = icloud_app_password (config account)
         ∧ name account'
             = (if truthy (update_name updates)
                then default (name account) (update_name updates) else name account)
         ∧ shared_mailbox (config account')
             = (match update_shared_mailbox updates with
                | Some m => Some m
                | None => shared_mailbox (config account)
                end)
         ∧ (∀ other, other ≠ account_id → accounts s' !! other = accounts s !! other)
         ∧ items s' = items s ∧ remote_calls s' = remote_calls s).
Proof.
  unfold update_account_details. run. split.
  - by intros ->.
  - intros account Hacc. rewrite Hacc. eexists _, _. split; [reflexivity|]. simpl.
    unfold update_account_kwargs, get_account in *. rewrite Hacc.
    split; [apply lookup_insert_eq|]. simpl.
    repeat split; try done.
    + by destruct (update_shared_mailbox updates), (update_gmail_account_number updates).
    + by destruct (update_shared_mailbox updates), (update_gmail_account_number updates).
    + by destruct (update_shared_mailbox updates), (update_gmail_account_number updates).
    + by destruct (update_shared_mailbox updates), (update_gmail_account_number updates).
    + by destruct (update_shared_mailbox updates), (update_gmail_account_number updates).
    + by destruct (truthy (update_name updates)), (update_name updates).
    + by destruct (update_shared_mailbox updates), (update_gmail_account_number updates).
    + intros other Hne. by rewrite lookup_insert_ne.
Qed.

Lemma update_account_details_keeps_credentials_witness :
  ∃ s' account',
    update_account_details "A" rename_update cached_state = (Ok "ok", s')
    ∧ get_account "A" (accounts s') = Some account'
    ∧ name account' = "Personal"
    ∧ icloud_email (config account') = None
    ∧ access_token (config account') = Some "at-1".
Proof.
  pose proof (update_account_details_keeps_credentials "A" rename_update cached_state)
    as [_ H].
  destruct (H (gmail_account "A" (tokens_until 9000)) ltac:(vm_compute; reflexivity))
    as (s' & account' & Hrun & Hget & _ & _ & _ & Hat & _ & _ & Hic & _ & Hname & _).
  exists s', account'. split; [exact Hrun|]. split; [exact Hget|].
  split; [exact Hname|]. split; [exact Hic|exact Hat].
Defined.

End account_routes.

(** ** Star and complete *)

Section star_and_complete.
Implicit Types (w : World) (s : ActionState) (reply : ActionCall → option string).

Ltac run_action :=
  cbv [mbind MA_bind mret MA_ret fail lift act M_bind M_ret read raise] in *;
  simpl in *.

(** X23.  [toggle_email_star] never touches the cached items, so that the
    flag of the cached item is the one of the last fetch.  It sends at most
    one mutation, for the given mail and with the given flag, and answers
    ["ok"] exactly when that mutation succeeded: a failure of the remote
    call comes back as an error. *)
Theorem toggle_email_star_effects w reply account_id email_id starred s x s' :
  toggle_email_star w reply account_id email_id starred s = (x, s') →
  items (base s') = items (base s)
  ∧ oauth_states (base s') = oauth_states (base s)
  ∧ ((action_calls s' = action_calls s ∧ ∃ e, x = Raise e)
     ∨ ∃ call,
         action_calls s' = action_calls s ++ [call]
         ∧ (∃ tok mailbox, call = MicrosoftToggleFlag tok email_id starred mailbox
                           ∨ call = GmailToggleStar tok email_id starred)
         ∧ x = match reply call with
               | Some msg => Raise (Error msg)
               | None => Ok "ok"
               end).
Proof.
  unfold toggle_email_star. run_action.
  destruct (get_account _ _) as [account|]; simpl; [|intros [= <- <-]; eauto 10].
  destruct (get_valid_token w account (base s)) as [[tok|e] s1] eqn:Htok;
    apply get_valid_token_frame in Htok as [Hi Ho]; simpl;
    [|intros [= <- <-]; eauto 10].
  repeat case_bool_decide; run_action; try (intros [= <- <-]; by eauto 10).
  all: destruct (reply _) eqn:Hr; intros [= <- <-]; simpl;
    (split; [done|]); (split; [done|]); right; eexists; (split; [reflexivity|]);
    rewrite Hr; (split; [|done]);
    first [by eexists _, _; left | by exists tok, None; right].
Qed.

Lemma toggle_email_star_effects_witness :
  let s' := {| base := cached_state;
               action_calls := [GmailToggleStar (Some "at-1") "m1" true] |} in
  toggle_email_star (world_at 5000 (inl "unused") (inl "unused"))
    (λ _, Some "503 Service Unavailable") "A" "m1" true
    {| base := cached_state; action_calls := [] |}
  = (Raise (Error "503 Service Unavailable"), s')
  ∧ items (base s') = items cached_state.
Proof.
  intros s'.
  assert (toggle_email_star (world_at 5000 (inl "unused") (inl "unused"))
            (λ _, Some "503 Service Unavailable") "A" "m1" true
            {| base := cached_state; action_calls := [] |}
          = (Raise (Error "503 Service Unavailable"), s')) as Hrun
    by (vm_compute; reflexivity).
  split; [exact Hrun|].
  exact (proj1 (toggle_email_star_effects _ _ _ _ _ _ _ _ Hrun)).
Defined.

(** X24.  [toggle_task_complete] refuses an account that is not a TickTick
    account before anything else: no token is refreshed and no call is
    sent.  On a TickTick account it sends at most one mutation for the
    given project and task, the completion when [completed] is set and the
    reopening otherwise, and never touches the cached items. *)
Theorem toggle_task_complete_effects w reply account_id task_id project_id completed s :
  (∀ account, get_account account_id (accounts (base s)) = Some account →
     provider account ≠ "ticktick" →
     toggle_task_complete w reply account_id task_id project_id completed s
       = (Raise (HTTPException 400 "Not a task provider"), s))
  ∧ (∀ x s', toggle_task_complete w reply account_id task_id project_id completed s
             = (x, s') →
       items (base s') = items (base s)
       ∧ ((action_calls s' = action_calls s ∧ ∃ e, x = Raise e)
          ∨ ∃ tok,
              let call := if completed
                          then TickTickCompleteTask tok project_id task_id
                          else TickTickUncompleteTask tok project_id task_id in
              action_calls s' = action_calls s ++ [call]
              ∧ x = match reply call with
                    | Some msg => Raise (Error msg)
                    | None => Ok "ok"
                    end)).
Proof.
  unfold toggle_task_complete. run_action. split.
  - intros account -> Hp. rewrite bool_decide_eq_false_2 by done. simpl. by destruct s.
  - intros x s'.
    destruct (get_account _ _) as [account|]; [|intros [= <- <-]; eauto 10].
    case_bool_decide; simpl; [|intros [= <- <-]; eauto 10].
    destruct (get_valid_token w account (base s)) as [[tok|e] s1] eqn:Htok;
      apply get_valid_token_frame in Htok as [Hi Ho]; simpl;
      [|intros [= <- <-]; eauto 10].
    destruct completed; run_action;
      destruct (reply _) eqn:Hr; intros [= <- <-]; simpl;
      (split; [done|]); right; exists tok; simpl; by rewrite Hr.
Qed.

Lemma toggle_task_complete_effects_witness :
  toggle_task_complete (world_at 8800 (inr new_tokens) (inl "unused")) (λ _, None)
    "A" "t1" "p1" true {| base := cached_state; action_calls := [] |}
  = (Raise (HTTPException 400 "Not a task provider"),
     {| base := cached_state; action_calls := [] |}).
Proof.
  apply (toggle_task_complete_effects (world_at 8800 (inr new_tokens) (inl "unused"))
           (λ _, None) "A" "t1" "p1" true {| base := cached_state; action_calls := [] |})
    with (account := gmail_account "A" (tokens_until 9000)).
  - vm_compute; reflexivity.
  - discriminate.
Defined.

End star_and_complete.

(** ** TickTick tasks *)

Section ticktick_tasks.
Implicit Types (task : Task) (data : string → option (list Task)).

Lemma elem_of_filter_and_transform x all_tasks :
  x ∈ filter_and_transform all_tasks →
  ∃ task, task ∈ all_tasks ∧ x = task_item task
          ∧ truthy (task_title task) = true
          ∧ (truthy (task_dueDate task) = true ∨ truthy (task_startDate task) = true).
Proof.
  induction all_tasks as [|task l IH]; [by intros ?%elem_of_nil|].
  rewrite filter_and_transform_cons, filter_and_transform_one, elem_of_app.
  intros [Hx|Hx].
  - destruct (is_note task); [by apply elem_of_nil in Hx|].
    destruct (truthy (task_title task)) eqn:Ht; [|by apply elem_of_nil in Hx].
    destruct (truthy (task_dueDate task)) eqn:Hd, (truthy (task_startDate task)) eqn:Hs;
      simpl in Hx; try (by apply elem_of_nil in Hx);
      apply list_elem_of_singleton in Hx as ->; exists task;
      (split; [by left|]); auto.
  - destruct (IH Hx) as (t & Hin & Hrest). exists t. split; [by right|done].
Qed.

(** X25.  Every normalised task has a title and a due date that are
    neither missing nor empty (the start date stands in for a missing due
    date), carries the id of a raw task and the provider ["ticktick"]; the
    row cached for it therefore has a title and a date. *)
Theorem normalised_tasks_have_title_and_date all_tasks x :
  x ∈ filter_and_transform all_tasks →
  truthy (item_title x) = true
  ∧ truthy (item_dueDate x) = true
  ∧ item_provider x = "ticktick"
  ∧ item_id x ∈ task_id <$> all_tasks
  ∧ ∀ now a k, row_title (item_row now a k x) = item_title x
               ∧ row_date (item_row now a k x) = item_dueDate x.
Proof.
  intros (task & Hin & -> & Ht & Hd)%elem_of_filter_and_transform. simpl.
  split; [done|]. split.
  { unfold py.or. destruct (truthy (task_dueDate task)) eqn:Hdue; [done|].
    by destruct Hd. }
  split; [done|]. split; [by apply list_elem_of_fmap_2|].
  intros now a k. unfold py.or. simpl. by rewrite Ht.
Qed.

Lemma normalised_tasks_have_title_and_date_witness :
  truthy (item_dueDate (task_item (raw_task None (Some "Call Bob") None
                                     (Some "2024-05-02")))) = true.
Proof.
  apply (normalised_tasks_have_title_and_date
           [raw_task None (Some "Call Bob") None (Some "2024-05-02")]).
  vm_compute. apply list_elem_of_singleton. reflexivity.
Defined.

Lemma elem_of_project_tasks data projects task :
  task ∈ project_tasks data projects →
  task_projectId task ∈ project_id <$> projects ∧ is_Some (data (task_projectId task)).
Proof.
  induction projects as [|p l IH]; simpl; [by intros ?%elem_of_nil|].
  destruct (data (project_id p)) as [tasks|] eqn:Hp.
  - rewrite elem_of_app. intros [(t & -> & _)%list_elem_of_fmap|Hin].
    + simpl. split; [by left|]. by rewrite Hp.
    + destruct (IH Hin). split; [by right|done].
  - intros Hin. destruct (IH Hin). split; [by right|done].
Qed.

Lemma elem_of_inbox_tasks data ids task :
  task ∈ inbox_tasks data ids →
  task_projectId task ∈ ids ∧ is_Some (data (task_projectId task)).
Proof.
  induction ids as [|i l IH]; simpl; [by intros ?%elem_of_nil|].
  destruct (data i) as [tasks|] eqn:Hi.
  - intros (t & -> & _)%list_elem_of_fmap. simpl. split; [by left|]. by rewrite Hi.
  - intros Hin. destruct (IH Hin). split; [by right|done].
Qed.

Lemma project_tasks_none data projects :
  (∀ id, data id = None) → project_tasks data projects = [].
Proof. intros H. induction projects as [|p l IH]; simpl; [done|]. by rewrite H. Qed.

Lemma inbox_tasks_none data ids : (∀ id, data id = None) → inbox_tasks data ids = [].
Proof. intros H. induction ids as [|i l IH]; simpl; [done|]. by rewrite H. Qed.

(** X26.  [get_tasks] fails only when the list of projects cannot be read.
    Otherwise a project whose data cannot be read is left out without
    failing the batch: every task answered belongs to a project whose data
    was read, which is a listed project, or one of the inbox ids when no
    listed project is the inbox; and when no data can be read at all the
    answer is the empty batch, not an error. *)
Theorem get_tasks_skips_unreadable_projects status error projects data :
  (is_success status = false → get_tasks status error projects data = Raise (Error error))
  ∧ (is_success status = true →
       ∃ batch, get_tasks status error projects data = Ok batch
                ∧ (∀ x, x ∈ batch →
                     ∃ id, item_projectId x = Some id ∧ is_Some (data id)
                           ∧ (id ∈ project_id <$> projects
                              ∨ (has_inbox projects = false ∧ id ∈ inbox_ids)))
                ∧ ((∀ id, data id = None) → batch = [])).
Proof.
  unfold get_tasks. split; [by intros ->|]. intros ->. cbn [negb].
  eexists. split; [done|]. split.
  - intros x (task & Hin & -> & _)%elem_of_filter_and_transform.
    exists (task_projectId task). split; [done|].
    destruct (has_inbox projects) eqn:Hinbox; cbn [negb] in Hin.
    + apply elem_of_project_tasks in Hin as [? ?]. auto.
    + apply elem_of_app in Hin as [Hin|Hin].
      * apply elem_of_project_tasks in Hin as [? ?]. auto.
      * apply elem_of_inbox_tasks in Hin as [? ?]. auto.
  - intros Hnone. rewrite project_tasks_none by done.
    destruct (negb _); by rewrite ?inbox_tasks_none.
Qed.

Lemma get_tasks_skips_unreadable_projects_witness :
  ∃ batch, get_tasks 200 EmptyString two_projects project_data = Ok batch
           ∧ item_projectId <$> batch = [Some "p1"; Some "INBOX"].
Proof.
  destruct (get_tasks_skips_unreadable_projects 200 EmptyString two_projects project_data)
    as [_ H].
  destruct (H eq_refl) as (batch & Hrun & _).
  exists batch. split; [exact Hrun|].
  vm_compute in Hrun. injection Hrun as <-. reflexivity.
Defined.

End ticktick_tasks.

(** ** Listings page by page *)

Section pages.

(** X27.  The Graph listing follows the next links and answers the items of
    all the pages in the order of the pages; when a page fails, the listing
    fails with the error of that page and the items of the earlier pages
    are not answered. *)
Theorem graph_pages_all_or_nothing (responses : nat → PageResponse) k n acc fuel :
  (∀ i, (i < k)%nat →
     is_success (page_status_code (responses (n + i)%nat)) = true
     ∧ truthy (page_nextLink (responses (n + i)%nat)) = true) →
  graph_pages (k + fuel) responses n acc
    = graph_pages fuel responses (n + k) (acc ++ graph_items responses n k)
  ∧ (is_success (page_status_code (responses (n + k)%nat)) = false →
     graph_pages (k + S fuel) responses n acc
       = Some (Raise (Error (page_error_text (responses (n + k)%nat)))))
  ∧ (is_success (page_status_code (responses (n + k)%nat)) = true →
     truthy (page_nextLink (responses (n + k)%nat)) = false →
     graph_pages (k + S fuel) responses n acc
       = Some (Ok (acc ++ graph_items responses n (S k)))).
Proof.
  intros Hpages.
  assert (∀ fuel', graph_pages (k + fuel') responses n acc
                   = graph_pages fuel' responses (n + k)
                       (acc ++ graph_items responses n k)) as Hrun.
  { clear fuel. revert n acc Hpages. induction k as [|k IH]; intros n acc Hpages fuel'.
    - simpl. by rewrite Nat.add_0_r, app_nil_r.
    - destruct (Hpages 0%nat) as [Hok Hnext]; [lia|]. rewrite Nat.add_0_r in Hok, Hnext.
      simpl. rewrite Hok, Hnext. simpl. rewrite IH.
      + replace (S n + k)%nat with (n + S k)%nat by lia. by rewrite <- (assoc_L (++)).
      + intros i Hi. destruct (Hpages (S i)) as [? ?]; [lia|].
        by replace (S n + i)%nat with (n + S i)%nat by lia. }
  assert (∀ m j, graph_items responses m (S j)
                 = graph_items responses m j
                   ++ (graph_item <$> page_value (responses (m + j)%nat))) as Hsnoc.
  { intros m j. revert m. induction j as [|j IH]; intros m.
    - simpl. by rewrite Nat.add_0_r, app_nil_r.
    - change (graph_items responses m (S (S j)))
        with ((graph_item <$> page_value (responses m))
                ++ graph_items responses (S m) (S j)).
      rewrite IH. replace (m + S j)%nat with (S m + j)%nat by lia.
      by rewrite (assoc_L (++)). }
  split; [apply Hrun|]. split.
  - intros Hfail. rewrite Hrun. simpl. by rewrite Hfail.
  - intros Hok Hlast. rewrite Hrun, Hsnoc. simpl. rewrite Hok, Hlast. simpl.
    by rewrite (assoc_L (++)).
Qed.

Lemma graph_pages_all_or_nothing_witness :
  graph_pages 2 two_pages 0 []
    = Some (Ok [graph_item (graph_mail "g1" (Some "Hello"));
                graph_item (graph_mail "g2" None)]).
Proof.
  apply (graph_pages_all_or_nothing two_pages 1 0 [] 0).
  - intros [|i] Hi; [split; reflexivity|lia].
  - reflexivity.
  - reflexivity.
Defined.

(** X28.  Every Graph item has a subject and a sender that are neither
    missing nor empty: the subject of the mail, or ["(No subject)"]; the
    name of the sender, else the address, else ["Unknown"].  The row
    cached for it carries that subject as title and the time of reception
    as date. *)
Theorem graph_item_placeholders (e : GraphEmail) :
  truthy (item_subject (graph_item e)) = true
  ∧ truthy (item_sender (graph_item e)) = true
  ∧ (truthy (graph_subject e) = false → item_subject (graph_item e) = Some "(No subject)")
  ∧ (truthy (graph_subject e) = true → item_subject (graph_item e) = graph_subject e)
  ∧ (truthy (graph_from_name e) = true → item_sender (graph_item e) = graph_from_name e)
  ∧ (truthy (graph_from_name e) = false → truthy (graph_from_address e) = true →
       item_sender (graph_item e) = graph_from_address e)
  ∧ (truthy (graph_from_name e) = false → truthy (graph_from_address e) = false →
       item_sender (graph_item e) = Some "Unknown")
  ∧ ∀ now a k, row_title (item_row now a k (graph_item e)) = item_subject (graph_item e)
               ∧ (graph_receivedDateTime e ≠ EmptyString →
                    row_date (item_row now a k (graph_item e))
                      = Some (graph_receivedDateTime e)).
Proof.
  unfold graph_item, item_row, py.or. simpl.
  destruct (truthy (graph_subject e)) eqn:Hs, (truthy (graph_from_name e)) eqn:Hn,
    (truthy (graph_from_address e)) eqn:Ha; simpl; rewrite ?Hs, ?Hn, ?Ha; simpl;
    repeat split; try done; intros Hr%String.eqb_neq; by rewrite Hr.
Qed.

(** X29.  The Gmail listing follows the page tokens and answers the message
    ids of all the pages in the order of the pages; when a page fails with
    a status other than 429, the listing fails with the error of that page
    and the ids of the earlier pages are not answered. *)
Theorem list_message_ids_pages (responses : nat → ListResponse) k n tok acc fuel :
  (∀ i, (i < k)%nat →
     is_success (status_code (responses (n + i)%nat)) = true
     ∧ truthy (nextPageToken (responses (n + i)%nat)) = true) →
  (is_success (status_code (responses (n + k)%nat)) = true →
   truthy (nextPageToken (responses (n + k)%nat)) = false →
   list_message_ids (k + S fuel) responses n tok acc
     = Some (Ok (acc ++ listed_ids responses n (S k))))
  ∧ (is_success (status_code (responses (n + k)%nat)) = false →
     status_code (responses (n + k)%nat) ≠ 429 →
     list_message_ids (k + S fuel) responses n tok acc
       = Some (Raise (Error (error_text (responses (n + k)%nat))))).
Proof.
  intros Hpages.
  assert (∀ status, is_success status = true → (status =? 429) = false) as Hnot429.
  { intros status. unfold is_success. rewrite andb_true_iff, Z.leb_le, Z.ltb_lt.
    intros [? ?]. apply Z.eqb_neq. lia. }
  assert (∀ fuel' tok', list_message_ids (k + fuel') responses n tok' acc
                        = list_message_ids fuel' responses (n + k)
                            (if k is O then tok' else nextPageToken (responses (n + k - 1)%nat))
                            (acc ++ listed_ids responses n k)) as Hrun.
  { clear fuel tok. revert n acc Hpages. induction k as [|k IH]; intros n acc Hpages fuel' tok'.
    - simpl. by rewrite Nat.add_0_r, app_nil_r.
    - destruct (Hpages 0%nat) as [Hok Hnext]; [lia|]. rewrite Nat.add_0_r in Hok, Hnext.
      simpl. rewrite (Hnot429 _ Hok), Hok, Hnext. simpl. rewrite IH.
      + rewrite <- (assoc_L (++)).
        replace (S n + k)%nat with (n + S k)%nat by lia. f_equal.
        destruct k as [|k].
        * by replace (n + 1 - 1)%nat with n by lia.
        * by replace (S n + S k - 1)%nat with (n + S (S k) - 1)%nat by lia.
      + intros i Hi. destruct (Hpages (S i)) as [? ?]; [lia|].
        by replace (S n + i)%nat with (n + S i)%nat by lia. }
  assert (∀ m j, listed_ids responses m (S j)
                 = listed_ids responses m j ++ messages (responses (m + j)%nat)) as Hsnoc.
  { intros m j. revert m. induction j as [|j IH]; intros m.
    - simpl. by rewrite Nat.add_0_r, app_nil_r.
    - change (listed_ids responses m (S (S j)))
        with (messages (responses m) ++ listed_ids responses (S m) (S j)).
      rewrite IH. replace (m + S j)%nat with (S m + j)%nat by lia.
      by rewrite (assoc_L (++)). }
  split.
  - intros Hok Hlast. rewrite Hrun, Hsnoc. simpl.
    rewrite (Hnot429 _ Hok), Hok, Hlast. simpl. by rewrite (assoc_L (++)).
  - intros Hfail Hne%Z.eqb_neq. rewrite Hrun. simpl. by rewrite Hne, Hfail.
Qed.

Lemma list_message_ids_pages_witness :
  list_message_ids 2 two_listings 0 None [] = Some (Ok ["a"; "b"; "c"]).
Proof.
  apply (list_message_ids_pages two_listings 1 0 None [] 0).
  - intros [|i] Hi; [split; reflexivity|lia].
  - reflexivity.
  - reflexivity.
Defined.

End pages.
